(** * FUT Monte-Carlo simulation: a shallow embedding of
      [src/simulation.py] and of [quantile] from [src/main.py].

    Numbers.  Python's [float] is idealised as an exact rational ([Q]):
    every arithmetic operation of the source is kept, in the order in which the
    source performs it, but without rounding.  Python's [==], [<] and [<=]
    on numbers are [Qeq], [Qlt] and [Qle].  Python's [int] is [Z].

    Effects.  A function either returns, raises, or is still running when the
    fuel given to its [while] loop is used up ([Res]).  The functions that
    reach [_build_distribution] also carry the number of times they entered
    it ([M], a counting writer on top of [Res]).  The generator object
    [random.Random] is a position in a stream of [random()] outputs, passed
    in and handed back explicitly. *)

From Stdlib Require Import QArith Qround Qabs Lqa Ascii.
From stdpp Require Import base gmap strings list sorting.

Local Open Scope string_scope.
Local Open Scope list_scope.

(** ** Exceptions and results *)

Inductive exn : Type :=
  | ValueError (msg : string)
    (* ValueError with a constant message *)
  | ValueErrorF (msg : string) (arg : Q)
    (* ValueError whose message is an f-string ending in the number [arg] *)
  | ZeroDivisionError
  | IndexError.

Inductive Res (A : Type) : Type :=
  | Ok (a : A)
  | Raise (e : exn)
  | OutOfFuel.
Arguments Ok {A} a.
Arguments Raise {A} e.
Arguments OutOfFuel {A}.

Definition res_bind {A B} (m : Res A) (f : A → Res B) : Res B :=
  match m with
  | Ok a => f a
  | Raise e => Raise e
  | OutOfFuel => OutOfFuel
  end.

(** [M A]: a result together with the number of entries into
    [_build_distribution] made while computing it. *)
Definition M (A : Type) : Type := Res (A * nat).

Definition ret {A} (a : A) : M A := Ok (a, 0%nat).
Definition raise {A} (e : exn) : M A := Raise e.
Definition tick : M unit := Ok (tt, 1%nat).
Definition lift {A} (m : Res A) : M A := res_bind m ret.
Definition bind {A B} (m : M A) (f : A → M B) : M B :=
  match m with
  | Ok (a, c) =>
      match f a with
      | Ok (b, c') => Ok (b, (c + c')%nat)
      | Raise e => Raise e
      | OutOfFuel => OutOfFuel
      end
  | Raise e => Raise e
  | OutOfFuel => OutOfFuel
  end.

Global Instance M_ret : MRet M := @ret.
Global Instance M_bind : MBind M := λ A B f m, bind m f.

(** What a computation returned, and how often it entered the builder. *)
Definition value {A} (m : M A) : Res A :=
  match m with
  | Ok (a, _) => Ok a
  | Raise e => Raise e
  | OutOfFuel => OutOfFuel
  end.

Definition builder_calls {A} (m : M A) : option nat :=
  match m with
  | Ok (_, c) => Some c
  | _ => None
  end.

(** ** Numbers *)

(** [x < y] on numbers, as a boolean. *)
Definition Qltb (x y : Q) : bool :=
  (Qnum x * Z.pos (Qden y) <? Qnum y * Z.pos (Qden x))%Z.

(** [sum(xs)]: starts from [0] and adds from the left. *)
Definition py_sum (xs : list Q) : Q := fold_left Qplus xs 0%Q.

(** [x / y], raising [ZeroDivisionError] when [y == 0]. *)
Definition py_div (x y : Q) : Res Q :=
  if Qeq_bool y 0 then Raise ZeroDivisionError else Ok (x / y)%Q.

(** [[f(x) for x in xs]] where [f] may raise. *)
Fixpoint comprehension {A B} (f : A → Res B) (xs : list A) : Res (list B) :=
  match xs with
  | [] => Ok []
  | x :: xs' =>
      res_bind (f x) (λ y, res_bind (comprehension f xs') (λ ys, Ok (y :: ys)))
  end.

(** [int(x)]: truncation toward zero. *)
Definition py_int (x : Q) : Z := (Qnum x ÷ Z.pos (Qden x))%Z.

(** [l[i]] with Python's negative indices. *)
Definition py_getitem {A} (l : list A) (i : Z) : Res A :=
  let n := Z.of_nat (length l) in
  let j := if (i <? 0)%Z then (i + n)%Z else i in
  if (j <? 0)%Z then Raise IndexError
  else match l !! Z.to_nat j with
       | Some x => Ok x
       | None => Raise IndexError
       end.

(** ** simulation.py *)

(** [@dataclass(frozen=True) class TargetPlayer]. *)
Record TargetPlayer : Type := { name : string; p : Q }.

(** [_build_distribution(players)]. *)
Definition _build_distribution (players : list TargetPlayer)
  : M (list string * list Q) :=
  _ ← tick;
   if existsb (λ pl, Qltb (p pl) 0) players then
     raise (ValueError "Probabilities must be non-negative.")
   else
     let p_hit := py_sum (map p players) in
     if Qltb 1 p_hit then
       raise (ValueErrorF "Sum of target probabilities exceeds 1.0: " p_hit)
     else
       let outcomes := map name players ++ ["OTHER"] in
       let probs := map p players ++ [(1 - p_hit)%Q] in
       let s := py_sum probs in
       probs ← lift (comprehension (λ x, py_div x s) probs);
       mret (outcomes, probs).

(** *** The generator

    [random.Random] lives in CPython's library, not in this repository.  A
    generator is the infinite sequence of the values its [random()] will
    return, with the position reached so far.  [RandomModule] gives the
    sequences: one per seed for [random.Random(seed)], and the one of a
    generator seeded by the operating system for [random.Random()]. *)

Record Rng : Type := { stream : nat → Q; pos : nat }.

Class RandomModule : Type := {
  seeded_stream : Z → nat → Q;
  system_stream : nat → Q
}.

(** [random.Random(seed)] and [random.Random()]. *)
Definition Random `{RandomModule} (seed : option Z) : Rng :=
  match seed with
  | Some s => {| stream := seeded_stream s; pos := 0 |}
  | None => {| stream := system_stream; pos := 0 |}
  end.

(** [rng.random()]: the next value; the generator moves on by one. *)
Definition random (rng : Rng) : Q * Rng :=
  (stream rng (pos rng), {| stream := stream rng; pos := S (pos rng) |}).

(** [itertools.accumulate(weights)]: the running sums, the first one being
    the first weight itself. *)
Fixpoint accumulate_from (acc : Q) (ws : list Q) : list Q :=
  match ws with
  | [] => []
  | w :: ws' => let acc' := (acc + w)%Q in acc' :: accumulate_from acc' ws'
  end.

Definition accumulate (ws : list Q) : list Q :=
  match ws with
  | [] => []
  | w :: ws' => w :: accumulate_from w ws'
  end.

(** [bisect.bisect_right(a, x, lo, hi)]:
<<
    while lo < hi:
        mid = (lo + hi) // 2
        if x < a[mid]: hi = mid
        else: lo = mid + 1
    return lo
>>
    The interval shrinks at every turn, so [hi - lo] turns are enough. *)
Fixpoint bisect_loop (turns : nat) (a : list Q) (x : Q) (lo hi : nat) : nat :=
  match turns with
  | O => lo
  | S turns' =>
      if (lo <? hi)%nat then
        let mid := ((lo + hi) / 2)%nat in
        if Qltb x (nth mid a 0%Q) then bisect_loop turns' a x lo mid
        else bisect_loop turns' a x (S mid) hi
      else lo
  end.

Definition bisect (a : list Q) (x : Q) (lo hi : nat) : nat :=
  bisect_loop (hi - lo) a x lo hi.

(** [rng.choices(population, weights=weights, k=1)[0]], after CPython's
    [Random.choices]:
<<
    n = len(population)
    cum_weights = list(accumulate(weights))
    if len(cum_weights) != n: raise ValueError(...)
    total = cum_weights[-1] + 0.0
    if total <= 0.0: raise ValueError(...)
    hi = n - 1
    return [population[bisect(cum_weights, random() * total, 0, hi)]]
>> *)
Definition choices (rng : Rng) (population : list string) (weights : list Q)
  : Res (string * Rng) :=
  let n := length population in
  let cum_weights := accumulate weights in
  if negb (length cum_weights =? n)%nat then
    Raise (ValueError "The number of weights does not match the population")
  else
    res_bind (py_getitem cum_weights (-1)) (λ last,
    let total := (last + 0)%Q in
    if Qle_bool total 0 then
      Raise (ValueError "Total of weights must be greater than zero")
    else
      let hi := (n - 1)%nat in
      let '(u, rng) := random rng in
      res_bind (py_getitem population
                  (Z.of_nat (bisect cum_weights (u * total)%Q 0 hi)))
               (λ draw, Ok (draw, rng))).

(** *** The trial *)

(** The [while collected != target_set] loop of [run_single_trial].  [fuel]
    bounds the number of times the body runs. *)
Fixpoint trial_loop (fuel : nat) (outcomes : list string) (probs : list Q)
    (target_set collected : gset string) (packs_opened : Z) (rng : Rng)
  : Res (Z * Rng) :=
  if decide (collected ≠ target_set) then
    match fuel with
    | O => OutOfFuel
    | S fuel' =>
        let packs_opened := (packs_opened + 1)%Z in
        res_bind (choices rng outcomes probs) (λ '(draw, rng),
        let collected :=
          if decide (draw ≠ "OTHER") then collected ∪ {[draw]} else collected in
        trial_loop fuel' outcomes probs target_set collected packs_opened rng)
    end
  else Ok (packs_opened, rng).

(** [rng or random.Random()]. *)
Definition rng_or_default `{RandomModule} (rng : option Rng) : Rng :=
  match rng with
  | Some r => r
  | None => Random None
  end.

(** [run_single_trial(players, rng)].  The source returns [packs_opened];
    the generator it advanced is returned with it. *)
Definition run_single_trial `{RandomModule} (fuel : nat)
    (players : list TargetPlayer) (rng : option Rng) : M (Z * Rng) :=
  let rng := rng_or_default rng in
  '(outcomes, probs) ← _build_distribution players;
  let target_set : gset string := list_to_set (map name players) in
  let collected : gset string := ∅ in
  let packs_opened := 0%Z in
  lift (trial_loop fuel outcomes probs target_set collected packs_opened rng).

(** [[run_single_trial(players, rng=rng) for _ in range(n)]]. *)
Fixpoint trials `{RandomModule} (fuel : nat) (players : list TargetPlayer)
    (n : nat) (rng : Rng) : M (list Z * Rng) :=
  match n with
  | O => mret ([], rng)
  | S n' =>
      '(packs, rng) ← run_single_trial fuel players (Some rng);
      '(rest, rng) ← trials fuel players n' rng;
      mret (packs :: rest, rng)
  end.

(** [run_many_trials(players, n_trials, seed)]; a caller that leaves [seed]
    out gets 42. *)
Definition run_many_trials `{RandomModule} (fuel : nat)
    (players : list TargetPlayer) (n_trials : Z) (seed : Z) : M (list Z) :=
  if (n_trials <=? 0)%Z then raise (ValueError "n_trials must be > 0")
  else
    let rng := Random (Some seed) in
    '(results, _) ← trials fuel players (Z.to_nat n_trials) rng;
    mret results.

(** ** main.py *)

(** [quantile(sorted_vals, q)]. *)
Definition quantile (sorted_vals : list Z) (q : Q) : Res Q :=
  if negb (Qle_bool 0 q && Qle_bool q 1) then
    Raise (ValueError "q must be within [0,1]")
  else
    let n := Z.of_nat (length sorted_vals) in
    if (n =? 0)%Z then Raise (ValueError "empty list")
    else
      let pos := (inject_Z (n - 1) * q)%Q in
      let lo := py_int pos in
      let hi := Z.min (lo + 1) (n - 1) in
      let frac := (pos - inject_Z lo)%Q in
      res_bind (py_getitem sorted_vals lo) (λ v_lo,
      res_bind (py_getitem sorted_vals hi) (λ v_hi,
      Ok (inject_Z v_lo * (1 - frac) + inject_Z v_hi * frac)%Q)).

(** ** Notions used to state the properties *)

(** The generator [j] calls of [random()] later. *)
Definition advance (rng : Rng) (j : nat) : Rng :=
  {| stream := stream rng; pos := j + pos rng |}.

(** The outcomes of the first [j] calls of [choices] on a generator. *)
Fixpoint draws (outcomes : list string) (probs : list Q) (rng : Rng) (j : nat)
  : list string :=
  match j with
  | O => []
  | S j' =>
      match choices rng outcomes probs with
      | Ok (draw, rng') => draw :: draws outcomes probs rng' j'
      | _ => []
      end
  end.

(** The target players seen in the first [j] draws. *)
Definition collected_after (outcomes : list string) (probs : list Q)
    (rng : Rng) (j : nat) : gset string :=
  list_to_set (filter (λ draw, draw ≠ "OTHER") (draws outcomes probs rng j)).

(** The set [{pl.name for pl in players}]. *)
Definition target_names (players : list TargetPlayer) : gset string :=
  list_to_set (map name players).

(** No negative probability, and the probabilities sum to at most 1. *)
Definition valid_input (players : list TargetPlayer) : Prop :=
  Forall (λ pl, (0 <= p pl)%Q) players ∧ (py_sum (map p players) <= 1)%Q.

(** The weights before normalisation: [[pl.p for pl in players] + [1.0 - p_hit]]. *)
Definition raw_weights (players : list TargetPlayer) : list Q :=
  map p players ++ [(1 - py_sum (map p players))%Q].

(** The number of draws made by the trials before trial [i] of a batch whose
    results are [results]. *)
Definition packs_before (results : list Z) (i : nat) : nat :=
  Z.to_nat (foldr Z.add 0%Z (take i results)).

(** The sum of the first [k] weights. *)
Definition prefix_sum (ws : list Q) (k : nat) : Q := py_sum (take k ws).


(** [random()] returns values in [0, 1). *)
Definition unit_range (rng : Rng) : Prop :=
  ∀ i : nat, (0 <= stream rng i)%Q ∧ (stream rng i < 1)%Q.

(** The error kinds of the specification, as the source raises them. *)
Definition InvalidProbability : exn :=
  ValueError "Probabilities must be non-negative.".
Definition ProbabilityBudgetExceeded (p_hit : Q) : exn :=
  ValueErrorF "Sum of target probabilities exceeds 1.0: " p_hit.
Definition InvalidTrialCount : exn := ValueError "n_trials must be > 0".
Definition InvalidQuantile : exn := ValueError "q must be within [0,1]".
Definition EmptyResultSet : exn := ValueError "empty list".


(** The batch as the specification words it: the distribution is built once,
    before the trials, and every trial samples from that one. *)
Fixpoint trials_shared (fuel : nat) (outcomes : list string) (probs : list Q)
    (target_set : gset string) (n : nat) (rng : Rng) : Res (list Z * Rng) :=
  match n with
  | O => Ok ([], rng)
  | S n' =>
      res_bind (trial_loop fuel outcomes probs target_set ∅ 0%Z rng)
        (λ '(packs, rng),
      res_bind (trials_shared fuel outcomes probs target_set n' rng)
        (λ '(rest, rng), Ok (packs :: rest, rng)))
  end.

Definition run_many_trials_build_once `{RandomModule} (fuel : nat)
    (players : list TargetPlayer) (n_trials : Z) (seed : Z) : M (list Z) :=
  if (n_trials <=? 0)%Z then raise (ValueError "n_trials must be > 0")
  else
    let rng := Random (Some seed) in
    '(outcomes, probs) ← _build_distribution players;
    '(results, _) ← lift (trials_shared fuel outcomes probs
                            (target_names players) (Z.to_nat n_trials) rng);
    mret results.

(** ** Concrete inputs *)

(** A random module all of whose generators return [u] for ever. *)
Definition constant_module (u : Q) : RandomModule :=
  {| seeded_stream := λ _ _, u; system_stream := λ _, u |}.

(** A generator that returns [0], then [1/2], then [0], ... *)
Definition alternating_rng : Rng :=
  {| stream := λ i, if Nat.even i then 0%Q else (1 # 2)%Q; pos := 0 |}.

Definition alternating_module : RandomModule :=
  {| seeded_stream := λ _, stream alternating_rng;
     system_stream := stream alternating_rng |}.

Definition player_A : TargetPlayer := {| name := "A"; p := 1 # 2 |}.
Definition player_B : TargetPlayer := {| name := "B"; p := 3 # 10 |}.
Definition player_OTHER : TargetPlayer := {| name := "OTHER"; p := 1 # 5 |}.
Definition player_negative : TargetPlayer := {| name := "C"; p := -1 # 10 |}.
Definition player_heavy : TargetPlayer := {| name := "D"; p := 3 # 5 |}.
Definition player_just_over : TargetPlayer :=
  {| name := "E"; p := 1000000000001 # 1000000000000 |}.

(** ** The loader and [main]

    [load_target_squad_csv] and [main] can fail in more ways than the core,
    and call more of Python's library: [str.strip], [float] and
    [csv.DictReader], which [Builtins] provides.  [dict_reader path] is the
    sequence of records that [csv.DictReader] yields for the file at [path],
    each a dictionary from the column names of the header to the fields of
    the line ([None] for a field the line does not have); opening and
    decoding the file are taken to succeed. *)

Inductive py_exn : Type :=
  | Core (e : exn)
    (* an error of the functions above *)
  | KeyError (key : string)
    (* row[key] on a record without that column *)
  | AttributeError
    (* None.strip() *)
  | TypeError
    (* float(None) *)
  | FloatValueError (text : string).
    (* ValueError: could not convert string to float *)

Inductive Run (A : Type) : Type :=
  | Done (a : A)
  | Failed (e : py_exn)
  | Unfinished.
Arguments Done {A} a.
Arguments Failed {A} e.
Arguments Unfinished {A}.

Global Instance Run_bind : MBind Run := λ A B f m,
  match m with
  | Done a => f a
  | Failed e => Failed e
  | Unfinished => Unfinished
  end.

(** A result of the core, seen from the callers. *)
Definition of_core {A} (m : Res A) : Run A :=
  match m with
  | Ok a => Done a
  | Raise e => Failed (Core e)
  | OutOfFuel => Unfinished
  end.

Abbreviation record := (gmap string (option string)).

Class Builtins : Type := {
  str_strip : string → string;
  float_of_str : string → option Q;
  dict_reader : string → list record
}.

(** [row[key]]. *)
Definition record_getitem (row : record) (key : string) : Run (option string) :=
  match row !! key with
  | Some field => Done field
  | None => Failed (KeyError key)
  end.

(** [field.strip()]. *)
Definition py_strip `{Builtins} (field : option string) : Run string :=
  match field with
  | Some text => Done (str_strip text)
  | None => Failed AttributeError
  end.

(** [float(field)]. *)
Definition py_float `{Builtins} (field : option string) : Run Q :=
  match field with
  | Some text =>
      match float_of_str text with
      | Some x => Done x
      | None => Failed (FloatValueError text)
      end
  | None => Failed TypeError
  end.

(** The body of the loop of [load_target_squad_csv], up to the player it
    appends. *)
Definition load_record `{Builtins} (row : record) : Run TargetPlayer :=
  field ← record_getitem row "player_name";
  player_name ← py_strip field;
  field ← record_getitem row "p";
  prob ← py_float field;
  Done {| name := player_name; p := prob |}.

(** [for row in reader: ... players.append(...)]. *)
Fixpoint load_records `{Builtins} (reader : list record)
    (players : list TargetPlayer) : Run (list TargetPlayer) :=
  match reader with
  | [] => Done players
  | row :: reader' =>
      player ← load_record row;
      load_records reader' (players ++ [player])
  end.

(** [load_target_squad_csv(path)]. *)
Definition load_target_squad_csv `{Builtins} (path : string)
  : Run (list TargetPlayer) :=
  players ← load_records (dict_reader path) [];
  match players with
  | [] => Failed (Core (ValueError "CSV contains no players."))
  | _ :: _ => Done players
  end.

(** The constants of [main.py]. *)
Definition PACK_PRICE_EUR : Q := 10.
Definition N_TRIALS : Z := 10000.
Definition SEED : Z := 42.
Definition CSV_PATH : string := "data/input/target_squad.csv".

(** [sorted(results)]: the values in ascending order. *)
Definition py_sorted (xs : list Z) : list Z := merge_sort Z.le xs.

(** [sum(results)] on integers. *)
Definition py_sum_int (xs : list Z) : Z := fold_left Z.add xs 0%Z.

(** What [main] prints: the numbers its report lines show, before they are
    formatted to two decimals. *)
Record Report : Type := {
  report_trials : Z;
  pack_price : Q;
  mean_packs : Q;
  mean_cost : Q;
  median_packs : Q;
  median_cost : Q;
  q95_packs : Q;
  q95_cost : Q
}.

(** [main()]. *)
Definition main `{RandomModule} `{Builtins} (fuel : nat) : Run Report :=
  players ← load_target_squad_csv CSV_PATH;
  results ← of_core (value (run_many_trials fuel players N_TRIALS SEED));
  let results_sorted := py_sorted results in
  mean ← of_core (py_div (inject_Z (py_sum_int results))
                    (inject_Z (Z.of_nat (length results))));
  median ← of_core (quantile results_sorted (1 # 2));
  q95 ← of_core (quantile results_sorted (95 # 100));
  Done {| report_trials := N_TRIALS;
          pack_price := PACK_PRICE_EUR;
          mean_packs := mean;
          mean_cost := (mean * PACK_PRICE_EUR)%Q;
          median_packs := median;
          median_cost := (median * PACK_PRICE_EUR)%Q;
          q95_packs := q95;
          q95_cost := (q95 * PACK_PRICE_EUR)%Q |}.

(** A library for examples: [strip] drops one leading blank. *)
Definition example_builtins (rows : list record) : Builtins :=
  {| str_strip := λ s, match s with
                       | String " "%char s' => s'
                       | _ => s
                       end;
     float_of_str := λ s, if decide (s = "0.5") then Some (1 # 2)%Q
                          else if decide (s = "0.3") then Some (3 # 10)%Q
                          else if decide (s = "-0.1") then Some (-1 # 10)%Q
                          else None;
     dict_reader := λ _, rows |}.

Definition record_A : record :=
  {[ "player_name" := Some " A"; "p" := Some "0.5" ]}.
Definition record_B : record :=
  {[ "player_name" := Some "B"; "p" := Some "0.3" ]}.
Definition record_bad : record :=
  {[ "player_name" := Some "C"; "p" := Some "half" ]}.

Definition record_short : record := {[ "player_name" := Some "D" ]}.

(** The report of [main] on a file with the one record of player A, with a
    generator that always returns 0. *)
Definition example_report : Run Report :=
  Eval vm_compute in
    main (H := constant_module 0) (H0 := example_builtins [record_A]) 1.

Definition player_zero : TargetPlayer := {| name := "Z"; p := 0 |}.

(** * Properties *)

(** ** Numbers *)

Lemma Qltb_lt (x y : Q) : Qltb x y = true ↔ (x < y)%Q.
Proof. unfold Qltb, Qlt. apply Z.ltb_lt. Qed.

Lemma Qltb_ge (x y : Q) : Qltb x y = false ↔ (y <= x)%Q.
Proof. unfold Qltb, Qle. apply Z.ltb_ge. Qed.

Lemma fold_left_Qplus (xs : list Q) (a : Q) :
  (fold_left Qplus xs a == a + py_sum xs)%Q.
Proof.
  unfold py_sum. revert a. induction xs as [|x xs IH]; intros a; simpl.
  - lra.
  - rewrite (IH (a + x)%Q), (IH (0 + x)%Q). lra.
Qed.

Lemma py_sum_cons (x : Q) (xs : list Q) : (py_sum (x :: xs) == x + py_sum xs)%Q.
Proof. unfold py_sum at 1. simpl. rewrite fold_left_Qplus. lra. Qed.

Lemma py_sum_snoc (xs : list Q) (y : Q) : py_sum (xs ++ [y]) = (py_sum xs + y)%Q.
Proof. unfold py_sum. by rewrite fold_left_app. Qed.

Lemma py_sum_scale (xs : list Q) (s : Q) :
  ¬ (s == 0)%Q → (py_sum (map (λ x, x / s) xs) == py_sum xs / s)%Q.
Proof.
  intros Hs. induction xs as [|x xs IH]; simpl.
  - unfold py_sum. simpl. field. done.
  - rewrite !py_sum_cons, IH. field. done.
Qed.

Lemma comprehension_div (xs : list Q) (s : Q) :
  ¬ (s == 0)%Q →
  comprehension (λ x, py_div x s) xs = Ok (map (λ x, (x / s)%Q) xs).
Proof.
  intros Hs. induction xs as [|x xs IH]; simpl; [done|].
  unfold py_div at 1. destruct (Qeq_bool s 0) eqn:E.
  - by apply Qeq_bool_eq in E.
  - simpl. by rewrite IH.
Qed.

(** ** The builder *)

Lemma raw_weights_sum (players : list TargetPlayer) :
  (py_sum (raw_weights players) == 1)%Q.
Proof. unfold raw_weights. rewrite py_sum_snoc. lra. Qed.

Lemma existsb_negative (players : list TargetPlayer) :
  existsb (λ pl, Qltb (p pl) 0) players = false
  ↔ Forall (λ pl, (0 <= p pl)%Q) players.
Proof.
  induction players as [|pl players IH]; simpl.
  - split; [constructor|done].
  - rewrite orb_false_iff, IH, Qltb_ge, Forall_cons. tauto.
Qed.

(** What the builder does, case by case. *)
Lemma build_negative (players : list TargetPlayer) :
  ¬ Forall (λ pl, (0 <= p pl)%Q) players →
  _build_distribution players = Raise InvalidProbability.
Proof.
  intros Hneg. unfold _build_distribution.
  destruct (existsb _ players) eqn:E; [done|].
  by apply existsb_negative in E.
Qed.

Lemma build_exceeded (players : list TargetPlayer) :
  Forall (λ pl, (0 <= p pl)%Q) players →
  (1 < py_sum (map p players))%Q →
  _build_distribution players
  = Raise (ProbabilityBudgetExceeded (py_sum (map p players))).
Proof.
  intros Hpos Hsum. unfold _build_distribution.
  apply existsb_negative in Hpos. apply Qltb_lt in Hsum.
  simpl. unfold mbind, M_bind, bind. simpl. by rewrite Hpos, Hsum.
Qed.

Lemma build_valid (players : list TargetPlayer) :
  valid_input players →
  _build_distribution players
  = Ok (map name players ++ ["OTHER"],
        map (λ x, (x / py_sum (raw_weights players))%Q) (raw_weights players),
        1%nat).
Proof.
  intros [Hpos Hsum]. unfold _build_distribution.
  apply existsb_negative in Hpos. apply Qltb_ge in Hsum.
  unfold mbind, M_bind, bind. simpl. rewrite Hpos, Hsum.
  fold (raw_weights players).
  rewrite comprehension_div; [done|].
  rewrite raw_weights_sum. lra.
Qed.

Lemma build_Ok_valid (players : list TargetPlayer) (d : list string * list Q)
    (c : nat) :
  _build_distribution players = Ok (d, c) → valid_input players.
Proof.
  intros Hb. unfold valid_input.
  destruct (existsb (λ pl, Qltb (p pl) 0) players) eqn:E1.
  - unfold _build_distribution in Hb. simpl in Hb.
    unfold mbind, M_bind, bind in Hb. simpl in Hb. by rewrite E1 in Hb.
  - apply existsb_negative in E1. split; [done|].
    destruct (Qltb 1 (py_sum (map p players))) eqn:E2.
    + apply Qltb_lt in E2. by rewrite (build_exceeded _ E1 E2) in Hb.
    + by apply Qltb_ge in E2.
Qed.

(** ** Sampling *)

Lemma advance_0 (rng : Rng) : advance rng 0 = rng.
Proof. by destruct rng. Qed.

Lemma advance_advance (rng : Rng) (i j : nat) :
  advance (advance rng i) j = advance rng (i + j).
Proof. unfold advance. simpl. f_equal. lia. Qed.

Lemma accumulate_from_length (acc : Q) (ws : list Q) :
  length (accumulate_from acc ws) = length ws.
Proof. revert acc. induction ws as [|w ws IH]; intros acc; simpl; auto. Qed.

Lemma accumulate_length (ws : list Q) : length (accumulate ws) = length ws.
Proof. destruct ws; simpl; [done|]. by rewrite accumulate_from_length. Qed.

Lemma accumulate_from_last (acc : Q) (ws : list Q) (x : Q) :
  last (acc :: accumulate_from acc ws) = Some x → (x == acc + py_sum ws)%Q.
Proof.
  revert acc. induction ws as [|w ws IH]; intros acc; cbn [accumulate_from].
  - intros [= <-]. unfold py_sum. simpl. lra.
  - rewrite last_cons_cons. intros Hl. apply IH in Hl.
    rewrite py_sum_cons. lra.
Qed.

Lemma accumulate_last (ws : list Q) (x : Q) :
  last (accumulate ws) = Some x → (x == py_sum ws)%Q.
Proof.
  destruct ws as [|w ws]; simpl; [done|].
  intros Hl. apply accumulate_from_last in Hl. rewrite py_sum_cons. done.
Qed.

Lemma py_getitem_last {A} (l : list A) :
  py_getitem l (-1)
  = match last l with Some x => Ok x | None => Raise IndexError end.
Proof.
  unfold py_getitem. simpl. rewrite last_lookup.
  destruct l as [|a l]; [done|].
  replace (Z.to_nat (-1 + Z.of_nat (length (a :: l)))) with (pred (length (a :: l)))
    by (simpl; lia).
  destruct (-1 + Z.of_nat (length (a :: l)) <? 0)%Z eqn:E.
  - apply Z.ltb_lt in E. simpl in E. lia.
  - done.
Qed.

Lemma py_getitem_nat {A} (l : list A) (i : nat) :
  py_getitem l (Z.of_nat i)
  = match l !! i with Some x => Ok x | None => Raise IndexError end.
Proof.
  unfold py_getitem.
  destruct (Z.of_nat i <? 0)%Z eqn:E; [apply Z.ltb_lt in E; lia|].
  rewrite E. by rewrite Nat2Z.id.
Qed.

Lemma bisect_loop_bounds (turns : nat) (a : list Q) (x : Q) (lo hi : nat) :
  (lo ≤ hi)%nat →
  (lo ≤ bisect_loop turns a x lo hi ≤ hi)%nat.
Proof.
  revert lo hi. induction turns as [|turns IH]; intros lo hi Hle;
    cbn [bisect_loop].
  - lia.
  - destruct (lo <? hi)%nat eqn:E; [|lia].
    apply Nat.ltb_lt in E.
    assert (lo ≤ (lo + hi) / 2 < hi)%nat as [H1 H2].
    { split.
      - apply Nat.div_le_lower_bound; lia.
      - apply Nat.Div0.div_lt_upper_bound; lia. }
    set (mid := ((lo + hi) / 2)%nat) in *.
    destruct (Qltb x _).
    + specialize (IH lo mid H1). lia.
    + specialize (IH (S mid) hi H2). lia.
Qed.

(** A call of [choices] moves the generator on by exactly one. *)
Lemma choices_advance (rng rng' : Rng) (o : list string) (w : list Q)
    (d : string) :
  choices rng o w = Ok (d, rng') → rng' = advance rng 1 ∧ d ∈ o.
Proof.
  unfold choices. destruct (negb _); [done|].
  destruct (py_getitem (accumulate w) (-1)) as [t| |]; simpl; try done.
  destruct (Qle_bool _ _); [done|].
  rewrite py_getitem_nat.
  destruct (o !! _) as [d'|] eqn:E; simpl; [|done].
  intros [= <- <-]. split; [done|]. by eapply list_elem_of_lookup_2.
Qed.

(** With as many weights as outcomes and a positive total, [choices]
    returns. *)
Lemma choices_returns (rng : Rng) (o : list string) (w : list Q) :
  length w = length o → o ≠ [] → (0 < py_sum w)%Q →
  ∃ d, choices rng o w = Ok (d, advance rng 1).
Proof.
  intros Hlen Hne Hpos. unfold choices.
  rewrite accumulate_length, Hlen, Nat.eqb_refl. simpl.
  rewrite py_getitem_last.
  destruct (last (accumulate w)) as [t|] eqn:El.
  - simpl. apply accumulate_last in El.
    destruct (Qle_bool (t + 0) 0) eqn:E.
    { apply Qle_bool_iff in E. lra. }
    rewrite py_getitem_nat.
    pose proof (bisect_loop_bounds (length o - 1 - 0) (accumulate w)
                  (stream rng (pos rng) * (t + 0))%Q 0 (length o - 1)) as Hb.
    destruct (o !! bisect _ _ 0 (length o - 1)) as [d|] eqn:Ed.
    + simpl. by exists d.
    + apply lookup_ge_None in Ed. unfold bisect in Ed.
      destruct o; [done|]. simpl in *. lia.
  - apply last_None in El. destruct w; [|done].
    destruct o; [done|]. done.
Qed.

Lemma build_choices (players : list TargetPlayer) (o : list string)
    (w : list Q) (c : nat) (rng : Rng) :
  _build_distribution players = Ok (o, w, c) →
  ∃ d, choices rng o w = Ok (d, advance rng 1).
Proof.
  intros Hb. pose proof (build_Ok_valid _ _ _ Hb) as Hv.
  rewrite (build_valid _ Hv) in Hb. injection Hb as <- <- <-.
  pose proof (raw_weights_sum players) as Hs.
  apply choices_returns.
  - unfold raw_weights. rewrite length_map, !length_app, !length_map. done.
  - by destruct (map name players).
  - rewrite py_sum_scale; [|lra]. rewrite Hs. reflexivity.
Qed.

(** ** The trial loop *)

Lemma collected_after_0 (o : list string) (w : list Q) (rng : Rng) :
  collected_after o w rng 0 = ∅.
Proof. done. Qed.

Lemma OTHER_not_collected (o : list string) (w : list Q) (rng : Rng) (j : nat) :
  "OTHER" ∉ collected_after o w rng j.
Proof.
  unfold collected_after. rewrite elem_of_list_to_set, list_elem_of_filter.
  by intros [? _].
Qed.

Lemma draws_length (o : list string) (w : list Q) (rng : Rng) (j : nat) :
  (length (draws o w rng j) ≤ j)%nat.
Proof.
  revert rng. induction j as [|j IH]; intros rng; simpl; [done|].
  destruct (choices rng o w) as [[d rng']| |]; simpl; [|lia..].
  specialize (IH rng'). lia.
Qed.


Section trial_loop.
Context (o : list string) (w : list Q) (T : gset string).

(** The three ways a turn of the loop can go. *)
Lemma trial_loop_done (fuel : nat) (c : gset string) (k : Z) (rng : Rng) :
  c = T → trial_loop fuel o w T c k rng = Ok (k, rng).
Proof.
  intros Hc. destruct fuel; cbn [trial_loop];
    by destruct (decide (c ≠ T)).
Qed.

Lemma trial_loop_O (c : gset string) (k : Z) (rng : Rng) :
  c ≠ T → trial_loop 0 o w T c k rng = OutOfFuel.
Proof. intros Hc. cbn [trial_loop]. by destruct (decide (c ≠ T)). Qed.

Lemma trial_loop_S (fuel : nat) (c : gset string) (k : Z) (rng : Rng) :
  c ≠ T →
  trial_loop (S fuel) o w T c k rng
  = res_bind (choices rng o w) (λ '(d, rng'),
      trial_loop fuel o w T
        (if decide (d ≠ "OTHER") then c ∪ {[d]} else c) (k + 1)%Z rng').
Proof. intros Hc. cbn [trial_loop]. by destruct (decide (c ≠ T)). Qed.


(** The counter counts the draws, and the generator has made as many. *)
Lemma trial_loop_counts (fuel : nat) (c : gset string) (k k' : Z)
    (rng rng' : Rng) :
  trial_loop fuel o w T c k rng = Ok (k', rng') →
  ∃ j : nat, (j ≤ fuel)%nat ∧ k' = (k + Z.of_nat j)%Z ∧ rng' = advance rng j.
Proof.
  revert c k rng. induction fuel as [|fuel IH]; intros c k rng;
    destruct (decide (c = T)) as [Hc|Hc].
  - rewrite trial_loop_done by done. intros [= <- <-]. exists 0%nat.
    rewrite advance_0. split_and!; [lia|lia|done].
  - by rewrite trial_loop_O.
  - rewrite trial_loop_done by done. intros [= <- <-]. exists 0%nat.
    rewrite advance_0. split_and!; [lia|lia|done].
  - rewrite trial_loop_S by done.
    destruct (choices rng o w) as [[d rng1]| |] eqn:E; cbn [res_bind];
      try done.
    apply choices_advance in E as [-> _].
    intros (j & Hj & -> & ->)%IH. exists (S j).
    rewrite advance_advance. split_and!; [lia|lia|done].
Qed.

(** From here on, [choices] returns on this distribution. *)
Context (Hchoices : ∀ rng, ∃ d, choices rng o w = Ok (d, advance rng 1)).

Lemma collected_after_S (c : gset string) (rng : Rng) (d : string) (j : nat) :
  choices rng o w = Ok (d, advance rng 1) →
  c ∪ collected_after o w rng (S j)
  = (if decide (d ≠ "OTHER") then c ∪ {[d]} else c)
    ∪ collected_after o w (advance rng 1) j.
Proof.
  intros Hd. unfold collected_after. cbn [draws]. rewrite Hd, filter_cons.
  destruct (decide (d ≠ "OTHER")); [|done].
  by rewrite list_to_set_cons, (assoc_L (∪)).
Qed.

Lemma collected_from_0 (c : gset string) (rng : Rng) :
  c ∪ collected_after o w rng 0 = c.
Proof. rewrite collected_after_0. apply (right_id_L ∅ (∪)). Qed.

(** The loop returns at the first [j] at which everything is collected. *)
Lemma trial_loop_first_full (fuel : nat) (c : gset string) (k k' : Z)
    (rng rng' : Rng) :
  trial_loop fuel o w T c k rng = Ok (k', rng')
  ↔ ∃ j : nat,
      (j ≤ fuel)%nat ∧ k' = (k + Z.of_nat j)%Z ∧ rng' = advance rng j ∧
      c ∪ collected_after o w rng j = T ∧
      ∀ i : nat, (i < j)%nat → c ∪ collected_after o w rng i ≠ T.
Proof.
  revert c k rng. induction fuel as [|fuel IH]; intros c k rng;
    destruct (decide (c = T)) as [Hc|Hc].
  1, 3: rewrite trial_loop_done by done; split;
    [ intros [= <- <-]; exists 0%nat;
      rewrite advance_0, collected_from_0;
      split_and!; [lia|lia|done|done|lia]
    | intros (j & _ & -> & -> & _ & Hfirst);
      destruct j as [|j];
      [ rewrite advance_0; do 2 f_equal; lia
      | specialize (Hfirst 0%nat ltac:(lia));
        by rewrite collected_from_0 in Hfirst ] ].
  - rewrite trial_loop_O by done. split; [done|].
    intros (j & Hj & _ & _ & Hfull & _).
    assert (j = 0%nat) as -> by lia. by rewrite collected_from_0 in Hfull.
  - rewrite trial_loop_S by done.
    destruct (Hchoices rng) as [d Hd]. rewrite Hd. cbn [res_bind].
    rewrite IH. split.
    + intros (j & Hj & -> & -> & Hfull & Hfirst). exists (S j).
      rewrite advance_advance, (collected_after_S _ _ d) by done.
      split_and!; [lia|lia|done|done|].
      intros [|i] Hi; [by rewrite collected_from_0|].
      rewrite (collected_after_S _ _ d) by done. apply Hfirst. lia.
    + intros (j & Hj & -> & -> & Hfull & Hfirst).
      destruct j as [|j]; [by rewrite collected_from_0 in Hfull|].
      exists j. rewrite advance_advance.
      rewrite (collected_after_S _ _ d) in Hfull by done.
      split_and!; [lia|lia|done|done|].
      intros i Hi. rewrite <-(collected_after_S _ _ d) by done.
      apply Hfirst. lia.
Qed.

(** It runs out of fuel when nothing up to then was full. *)
Lemma trial_loop_OutOfFuel (fuel : nat) (c : gset string) (k : Z) (rng : Rng) :
  (∀ i : nat, (i ≤ fuel)%nat → c ∪ collected_after o w rng i ≠ T) →
  trial_loop fuel o w T c k rng = OutOfFuel.
Proof.
  revert c k rng. induction fuel as [|fuel IH]; intros c k rng Hnot;
    (destruct (decide (c = T)) as [Hc|Hc];
     [ specialize (Hnot 0%nat ltac:(lia));
       by rewrite collected_from_0 in Hnot |]).
  - by rewrite trial_loop_O.
  - rewrite trial_loop_S by done.
    destruct (Hchoices rng) as [d Hd]. rewrite Hd. cbn [res_bind].
    apply IH. intros i Hi. rewrite <-(collected_after_S _ _ d) by done.
    apply Hnot. lia.
Qed.
End trial_loop.

(** ** Which outcome is drawn *)

(** On a non-decreasing list, [bisect] finds the point where the values
    start to exceed [x]. *)
Lemma bisect_loop_sorted (a : list Q) (x : Q) (turns lo hi : nat) :
  (∀ i j : nat, (i ≤ j < length a)%nat → (nth i a 0 <= nth j a 0)%Q) →
  (hi - lo ≤ turns)%nat → (lo ≤ hi < length a)%nat →
  (∀ j : nat, (j < lo)%nat → (nth j a 0 <= x)%Q) →
  (∀ j : nat, (hi ≤ j < length a)%nat → (x < nth j a 0)%Q) →
  (lo ≤ bisect_loop turns a x lo hi ≤ hi)%nat ∧
  (∀ j : nat, (j < bisect_loop turns a x lo hi)%nat → (nth j a 0 <= x)%Q) ∧
  (∀ j : nat, (bisect_loop turns a x lo hi ≤ j < length a)%nat →
     (x < nth j a 0)%Q).
Proof.
  intros Hmono. revert lo hi.
  induction turns as [|turns IH]; intros lo hi Hturns Hle Hlow Hhigh;
    cbn [bisect_loop].
  - assert (lo = hi) as -> by lia. split_and!; [lia|lia|done|done].
  - destruct (lo <? hi)%nat eqn:E.
    2:{ apply Nat.ltb_ge in E. assert (lo = hi) as -> by lia.
        split_and!; [lia|lia|done|done]. }
    apply Nat.ltb_lt in E.
    assert (lo ≤ (lo + hi) / 2 < hi)%nat as [H1 H2].
    { split.
      - apply Nat.div_le_lower_bound; lia.
      - apply Nat.Div0.div_lt_upper_bound; lia. }
    set (mid := ((lo + hi) / 2)%nat) in *.
    destruct (Qltb x (nth mid a 0%Q)) eqn:Ex.
    + apply Qltb_lt in Ex.
      destruct (IH lo mid) as (Hb & Hl & Hh); [lia|lia|done| |].
      * intros j [Hj1 Hj2]. destruct (decide (hi ≤ j)%nat).
        { apply Hhigh. lia. }
        eapply Qlt_le_trans; [exact Ex|]. apply Hmono. lia.
      * split_and!; [lia|lia|done|done].
    + apply Qltb_ge in Ex.
      destruct (IH (S mid) hi) as (Hb & Hl & Hh); [lia|lia| |done|].
      * intros j Hj. destruct (decide (j < lo)%nat).
        { by apply Hlow. }
        eapply Qle_trans; [|exact Ex].
        apply Hmono. lia.
      * split_and!; [lia|lia|done|done].
Qed.

Lemma prefix_sum_0 (ws : list Q) : prefix_sum ws 0 = 0%Q.
Proof. done. Qed.

Lemma prefix_sum_all (ws : list Q) (k : nat) :
  (length ws ≤ k)%nat → prefix_sum ws k = py_sum ws.
Proof. intros Hk. unfold prefix_sum. by rewrite take_ge. Qed.

Lemma prefix_sum_S (ws : list Q) (k : nat) (x : Q) :
  ws !! k = Some x → prefix_sum ws (S k) = (prefix_sum ws k + x)%Q.
Proof.
  intros Hk. unfold prefix_sum.
  by rewrite (take_S_r _ _ _ Hk), py_sum_snoc.
Qed.

Lemma prefix_sum_mono (ws : list Q) (i j : nat) :
  Forall (λ x, (0 <= x)%Q) ws → (i ≤ j)%nat →
  (prefix_sum ws i <= prefix_sum ws j)%Q.
Proof.
  intros Hws Hij. induction Hij as [|j Hij IH]; [lra|].
  destruct (ws !! j) as [x|] eqn:Ej.
  - rewrite (prefix_sum_S _ _ _ Ej).
    pose proof (Forall_lookup_1 _ _ _ _ Hws Ej) as Hx. simpl in Hx. lra.
  - apply lookup_ge_None in Ej.
    rewrite (prefix_sum_all ws (S j)) by lia.
    by rewrite (prefix_sum_all ws j) in IH by lia.
Qed.

Lemma accumulate_from_nth (acc : Q) (ws : list Q) (k : nat) :
  (k < length ws)%nat →
  (nth k (accumulate_from acc ws) 0 == acc + prefix_sum ws (S k))%Q.
Proof.
  revert acc k. induction ws as [|x ws IH]; intros acc k Hk;
    cbn [length] in Hk; [lia|].
  cbn [accumulate_from]. unfold prefix_sum. cbn [take].
  rewrite py_sum_cons. destruct k as [|k]; cbn [nth].
  - cbn [take]. unfold py_sum. simpl. lra.
  - rewrite IH by lia. unfold prefix_sum. lra.
Qed.

Lemma accumulate_nth (ws : list Q) (k : nat) :
  (k < length ws)%nat →
  (nth k (accumulate ws) 0 == prefix_sum ws (S k))%Q.
Proof.
  destruct ws as [|x ws]; cbn [length]; [lia|]. intros Hk.
  cbn [accumulate]. unfold prefix_sum. cbn [take]. rewrite py_sum_cons.
  destruct k as [|k]; cbn [nth].
  - cbn [take]. unfold py_sum. simpl. lra.
  - rewrite accumulate_from_nth by lia. unfold prefix_sum. lra.
Qed.

Lemma accumulate_sorted (ws : list Q) (i j : nat) :
  Forall (λ x, (0 <= x)%Q) ws → (i ≤ j < length (accumulate ws))%nat →
  (nth i (accumulate ws) 0 <= nth j (accumulate ws) 0)%Q.
Proof.
  rewrite accumulate_length. intros Hws Hij.
  rewrite !accumulate_nth by lia. apply prefix_sum_mono; [done|lia].
Qed.

(** Which outcome [choices] returns: the one whose interval of cumulative
    weight contains [random() * total]. *)
Lemma choices_interval (rng : Rng) (o : list string) (ws : list Q) :
  Forall (λ x, (0 <= x)%Q) ws → length ws = length o → o ≠ [] →
  (0 < py_sum ws)%Q →
  (0 <= stream rng (pos rng))%Q → (stream rng (pos rng) < 1)%Q →
  ∃ (r : nat) (d : string),
    o !! r = Some d ∧ choices rng o ws = Ok (d, advance rng 1) ∧
    (prefix_sum ws r <= stream rng (pos rng) * py_sum ws)%Q ∧
    (stream rng (pos rng) * py_sum ws < prefix_sum ws (S r))%Q.
Proof.
  intros Hws Hlen Hne Hpos Hu0 Hu1. unfold choices.
  rewrite accumulate_length, Hlen, Nat.eqb_refl. cbn [negb].
  rewrite py_getitem_last.
  destruct (last (accumulate ws)) as [t|] eqn:El.
  2:{ apply last_None in El. destruct ws; [|done]. by destruct o. }
  cbn [res_bind]. apply accumulate_last in El as Ht.
  destruct (Qle_bool (t + 0) 0) eqn:E; [apply Qle_bool_iff in E; lra|].
  cbn [random]. set (u := stream rng (pos rng)) in *.
  assert (u * (t + 0) == u * py_sum ws)%Q as Hx by (rewrite Ht; ring).
  set (x := (u * (t + 0))%Q) in *.
  assert (0 < length o)%nat as Hn by (destruct o; [done|simpl; lia]).
  destruct (bisect_loop_sorted (accumulate ws) x (length o - 1 - 0) 0
              (length o - 1)) as (Hb & Hlow & Hhigh).
  - intros i j Hij. by apply accumulate_sorted.
  - lia.
  - rewrite accumulate_length. lia.
  - lia.
  - rewrite accumulate_length. intros j Hj.
    rewrite accumulate_nth by lia.
    rewrite (prefix_sum_all ws (S j)) by lia. rewrite Hx.
    rewrite <-(Qmult_1_l (py_sum ws)) at 2. by apply Qmult_lt_compat_r.
  - fold (bisect (accumulate ws) x 0 (length o - 1)) in *.
    set (r := bisect (accumulate ws) x 0 (length o - 1)) in *.
    rewrite py_getitem_nat.
    destruct (o !! r) as [d|] eqn:Ed.
    2:{ apply lookup_ge_None in Ed. lia. }
    exists r, d. split_and!; [done|done| |].
    + rewrite <-Hx. destruct r as [|r'].
      * rewrite prefix_sum_0. rewrite Hx. apply Qmult_le_0_compat; lra.
      * rewrite <-accumulate_nth by lia. apply Hlow. lia.
    + rewrite <-Hx, <-accumulate_nth by lia. apply Hhigh.
      rewrite accumulate_length. lia.
Qed.


(** ** Sampling from the built distribution *)

Lemma raw_weights_nonneg (players : list TargetPlayer) :
  valid_input players → Forall (λ x, (0 <= x)%Q) (raw_weights players).
Proof.
  intros [Hpos Hsum]. unfold raw_weights. apply Forall_app. split.
  - by apply Forall_fmap.
  - constructor; [lra|constructor].
Qed.

Lemma prefix_sum_scale (ws : list Q) (s : Q) (k : nat) :
  (s == 1)%Q →
  (prefix_sum (map (λ x, x / s) ws) k == prefix_sum ws k)%Q.
Proof.
  intros Hs. unfold prefix_sum. rewrite firstn_map.
  rewrite py_sum_scale by lra. rewrite Hs. field.
Qed.


(** A draw from the built distribution with [u = random()] returns the
    outcome at the index [r] with
    [prefix_sum raw r <= u < prefix_sum raw (r+1)]. *)
Lemma build_draw_interval (players : list TargetPlayer) (o : list string)
    (w : list Q) (c : nat) (rng : Rng) :
  _build_distribution players = Ok (o, w, c) →
  (0 <= stream rng (pos rng))%Q → (stream rng (pos rng) < 1)%Q →
  ∃ (r : nat) (d : string),
    o !! r = Some d ∧ choices rng o w = Ok (d, advance rng 1) ∧
    (prefix_sum (raw_weights players) r <= stream rng (pos rng))%Q ∧
    (stream rng (pos rng) < prefix_sum (raw_weights players) (S r))%Q.
Proof.
  intros Hb Hu0 Hu1. pose proof (build_Ok_valid _ _ _ Hb) as Hv.
  rewrite (build_valid _ Hv) in Hb. injection Hb as <- <- <-.
  pose proof (raw_weights_sum players) as Hs.
  pose proof (raw_weights_nonneg players Hv) as Hraw.
  set (w := map (λ x, (x / py_sum (raw_weights players))%Q)
              (raw_weights players)).
  assert (py_sum w == 1)%Q as Hw.
  { unfold w. rewrite py_sum_scale by lra. rewrite Hs. reflexivity. }
  destruct (choices_interval rng (map name players ++ ["OTHER"]) w)
    as (r & d & Hr & Hd & Hlo & Hhi); try done.
  - unfold w. apply Forall_fmap.
    eapply Forall_impl; [exact Hraw|]. intros x Hx. simpl.
    rewrite Hs. unfold Qdiv. rewrite Qmult_1_r. done.
  - unfold w, raw_weights. by rewrite length_map, !length_app, !length_map.
  - by destruct (map name players).
  - rewrite Hw. reflexivity.
  - exists r, d. rewrite Hw, Qmult_1_r in Hlo, Hhi. unfold w in Hlo, Hhi.
    rewrite prefix_sum_scale in Hlo, Hhi by done. done.
Qed.


Lemma draws_inv (o : list string) (w : list Q) (rng : Rng) (j : nat)
    (d : string) :
  d ∈ draws o w rng j →
  ∃ (i : nat) (rng' : Rng),
    (i < j)%nat ∧ choices (advance rng i) o w = Ok (d, rng').
Proof.
  revert rng. induction j as [|j IH]; intros rng; cbn [draws].
  - by intros ?%elem_of_nil.
  - destruct (choices rng o w) as [[d0 rng0]| |] eqn:E;
      [|by intros ?%elem_of_nil..].
    intros [->|Hd]%elem_of_cons.
    + exists 0%nat, rng0. rewrite advance_0. split; [lia|done].
    + apply choices_advance in E as [-> _].
      apply IH in Hd as (i & rng' & Hi & Hd). exists (S i), rng'.
      rewrite advance_advance in Hd. split; [lia|done].
Qed.

Lemma build_outcomes_lookup (players : list TargetPlayer) (o : list string)
    (w : list Q) (c : nat) (i : nat) (pl : TargetPlayer) :
  _build_distribution players = Ok (o, w, c) →
  players !! i = Some pl →
  o !! i = Some (name pl) ∧
  prefix_sum (raw_weights players) (S i)
  = (prefix_sum (raw_weights players) i + p pl)%Q.
Proof.
  intros Hb Hi. pose proof (build_Ok_valid _ _ _ Hb) as Hv.
  rewrite (build_valid _ Hv) in Hb. injection Hb as <- _ _.
  pose proof (lookup_lt_Some _ _ _ Hi) as Hlt. split.
  - rewrite lookup_app_l by (by rewrite length_map).
    change (map name players) with (name <$> players).
    by rewrite list_lookup_fmap, Hi.
  - apply prefix_sum_S. unfold raw_weights.
    rewrite lookup_app_l by (by rewrite length_map).
    change (map p players) with (p <$> players).
    by rewrite list_lookup_fmap, Hi.
Qed.

Lemma build_outcomes_NoDup (players : list TargetPlayer) (o : list string)
    (w : list Q) (c : nat) :
  _build_distribution players = Ok (o, w, c) →
  NoDup (map name players) → "OTHER" ∉ map name players → NoDup o.
Proof.
  intros Hb Hnd Hother. pose proof (build_Ok_valid _ _ _ Hb) as Hv.
  rewrite (build_valid _ Hv) in Hb. injection Hb as <- _ _.
  apply NoDup_app. split_and!; [done| |apply NoDup_singleton].
  intros x Hx ->%list_elem_of_singleton. done.
Qed.

(** A player of probability zero is never drawn. *)
Lemma zero_probability_never_drawn (players : list TargetPlayer)
    (o : list string) (w : list Q) (c : nat) (rng : Rng) (i j : nat)
    (pl : TargetPlayer) :
  _build_distribution players = Ok (o, w, c) →
  NoDup (map name players) → "OTHER" ∉ map name players →
  players !! i = Some pl → (p pl == 0)%Q → unit_range rng →
  name pl ∉ draws o w rng j.
Proof.
  intros Hb Hnd Hother Hi Hp Hrange (i' & rng' & _ & Hd)%draws_inv.
  destruct (build_draw_interval _ _ _ _ (advance rng i') Hb)
    as (r & d & Hr & Hd' & Hlo & Hhi); [apply Hrange..|].
  rewrite Hd' in Hd. injection Hd as -> _.
  destruct (build_outcomes_lookup _ _ _ _ _ _ Hb Hi) as [Ho HS].
  pose proof (build_outcomes_NoDup _ _ _ _ Hb Hnd Hother) as Hnd'.
  assert (r = i) as -> by (by eapply NoDup_lookup).
  rewrite HS in Hhi. lra.
Qed.




(** ** The distribution builder *)








(** ** The quantile *)

Lemma py_int_floor (x : Q) : (0 <= x)%Q → py_int x = Qfloor x.
Proof.
  destruct x as [n d]. unfold py_int, Qfloor, Qle. simpl. intros Hn.
  apply Z.quot_div_nonneg; lia.
Qed.


Lemma py_getitem_nth (l : list Z) (i : Z) :
  (0 <= i < Z.of_nat (length l))%Z →
  py_getitem l i = Ok (nth (Z.to_nat i) l 0%Z).
Proof.
  intros [H0 Hn]. unfold py_getitem.
  destruct (i <? 0)%Z eqn:E; [apply Z.ltb_lt in E; lia|]. rewrite E.
  destruct (l !! Z.to_nat i) as [x|] eqn:El.
  - by rewrite (nth_lookup_Some _ _ _ _ El).
  - apply lookup_ge_None in El. lia.
Qed.

(** The fractional rank lies between the first and the last index. *)
Lemma rank_bounds (n : Z) (q : Q) :
  (1 <= n)%Z → (0 <= q)%Q → (q <= 1)%Q →
  (0 <= inject_Z (n - 1) * q)%Q ∧ (inject_Z (n - 1) * q <= inject_Z (n - 1))%Q ∧
  (0 <= Qfloor (inject_Z (n - 1) * q) <= n - 1)%Z.
Proof.
  intros Hn H0 H1.
  assert (0 <= inject_Z (n - 1))%Q as Hn'.
  { change 0%Q with (inject_Z 0). rewrite <-Zle_Qle. lia. }
  assert (0 <= inject_Z (n - 1) * q)%Q as Hlo by (by apply Qmult_le_0_compat).
  assert (inject_Z (n - 1) * q <= inject_Z (n - 1))%Q as Hhi.
  { rewrite <-(Qmult_1_r (inject_Z (n - 1))) at 2.
    rewrite (Qmult_comm _ q), (Qmult_comm _ 1).
    by apply Qmult_le_compat_r. }
  split_and!; try done.
  - rewrite <-(Qfloor_Z 0). by apply Qfloor_resp_le.
  - rewrite <-(Qfloor_Z (n - 1)) at 2. by apply Qfloor_resp_le.
Qed.

(** What [quantile] returns on a non-empty list for [q] in [0,1]. *)
Lemma quantile_returns (vals : list Z) (q : Q) :
  vals ≠ [] → (0 <= q)%Q → (q <= 1)%Q →
  let n := Z.of_nat (length vals) in
  let pos := (inject_Z (n - 1) * q)%Q in
  let lo := Qfloor pos in
  let hi := Z.min (lo + 1) (n - 1) in
  quantile vals q
  = Ok (inject_Z (nth (Z.to_nat lo) vals 0%Z) * (1 - (pos - inject_Z lo))
        + inject_Z (nth (Z.to_nat hi) vals 0%Z) * (pos - inject_Z lo))%Q.
Proof.
  intros Hne H0 H1 n pos lo hi. unfold quantile.
  assert (1 <= n)%Z as Hn by (destruct vals; [done|subst n; simpl; lia]).
  destruct (rank_bounds n q Hn H0 H1) as (Hp0 & Hp1 & Hlo).
  apply Qle_bool_iff in H0 as Hb0. apply Qle_bool_iff in H1 as Hb1.
  rewrite Hb0, Hb1. cbn [andb negb].
  fold n. destruct (n =? 0)%Z eqn:E; [apply Z.eqb_eq in E; lia|].
  fold pos. rewrite (py_int_floor pos Hp0). fold lo. fold hi.
  rewrite (py_getitem_nth vals lo) by (subst n lo pos; lia). cbn [res_bind].
  rewrite (py_getitem_nth vals hi) by (subst n hi lo pos; lia). done.
Qed.






(** ** One trial *)

Section single_trial.
Context `{RandomModule}.

(** A trial is the builder followed by the loop. *)
Lemma run_single_trial_built (fuel : nat) (players : list TargetPlayer)
    (rng : option Rng) (o : list string) (w : list Q) (c : nat) :
  _build_distribution players = Ok (o, w, c) →
  run_single_trial fuel players rng
  = match trial_loop fuel o w (target_names players) ∅ 0%Z
            (rng_or_default rng) with
    | Ok res => Ok (res, 1%nat)
    | Raise e => Raise e
    | OutOfFuel => OutOfFuel
    end.
Proof.
  intros Hb. pose proof (build_Ok_valid _ _ _ Hb) as Hv.
  rewrite (build_valid _ Hv) in Hb. injection Hb as <- <- <-.
  unfold run_single_trial. rewrite (build_valid _ Hv).
  unfold mbind, M_bind, bind, target_names.
  by destruct (trial_loop _ _ _ _ _ _ _) as [[k rng']| |].
Qed.

Lemma run_single_trial_raises (fuel : nat) (players : list TargetPlayer)
    (rng : option Rng) (e : exn) :
  _build_distribution players = Raise e →
  run_single_trial fuel players rng = Raise e.
Proof. intros Hb. unfold run_single_trial. by rewrite Hb. Qed.

Lemma value_run_single_trial (fuel : nat) (players : list TargetPlayer)
    (rng : option Rng) (o : list string) (w : list Q) (c : nat) :
  _build_distribution players = Ok (o, w, c) →
  value (run_single_trial fuel players rng)
  = trial_loop fuel o w (target_names players) ∅ 0%Z (rng_or_default rng).
Proof.
  intros Hb. rewrite (run_single_trial_built _ _ _ _ _ _ Hb).
  by destruct (trial_loop _ _ _ _ _ _ _).
Qed.

(** The trial returns at the first [j] at which the players seen in the
    first [j] draws are all the target players. *)
Lemma run_single_trial_first_full (fuel : nat) (players : list TargetPlayer)
    (rng : option Rng) (o : list string) (w : list Q) (c : nat)
    (k : Z) (rng' : Rng) :
  _build_distribution players = Ok (o, w, c) →
  value (run_single_trial fuel players rng) = Ok (k, rng')
  ↔ ∃ j : nat,
      (j ≤ fuel)%nat ∧ k = Z.of_nat j ∧
      rng' = advance (rng_or_default rng) j ∧
      collected_after o w (rng_or_default rng) j = target_names players ∧
      ∀ i : nat, (i < j)%nat →
        collected_after o w (rng_or_default rng) i ≠ target_names players.
Proof.
  intros Hb. rewrite (value_run_single_trial _ _ _ _ _ _ Hb).
  rewrite trial_loop_first_full by (intros r; by eapply build_choices).
  split; intros (j & Hj & Hk & Hr & Hfull & Hfirst); exists j.
  - rewrite (left_id_L ∅ (∪)) in Hfull. split_and!; try done.
    intros i Hi. specialize (Hfirst i Hi).
    by rewrite (left_id_L ∅ (∪)) in Hfirst.
  - rewrite (left_id_L ∅ (∪)). split_and!; try done.
    intros i Hi. rewrite (left_id_L ∅ (∪)). by apply Hfirst.
Qed.

(** A player named like the synthetic outcome is never collected. *)
Lemma OTHER_named_never_returns (fuel : nat) (players : list TargetPlayer)
    (rng : option Rng) :
  valid_input players → "OTHER" ∈ map name players →
  value (run_single_trial fuel players rng) = OutOfFuel.
Proof.
  intros Hv Hin. rewrite (value_run_single_trial _ _ _ _ _ _ (build_valid _ Hv)).
  apply trial_loop_OutOfFuel.
  - intros r. eapply build_choices, (build_valid _ Hv).
  - intros i _ Heq.
    assert ("OTHER" ∈ target_names players) as Ht
      by (unfold target_names; by apply elem_of_list_to_set).
    rewrite <-Heq, (left_id_L ∅ (∪)) in Ht.
    by apply OTHER_not_collected in Ht.
Qed.
End single_trial.


Lemma size_list_to_set_le (l : list string) :
  (size (list_to_set l : gset string) ≤ length l)%nat.
Proof.
  induction l as [|x l IH].
  - rewrite list_to_set_nil, size_empty. done.
  - rewrite list_to_set_cons, size_union_alt, size_singleton. cbn [length].
    pose proof (subseteq_size (list_to_set l ∖ {[x]})
                  (list_to_set l : gset string)
                  (subseteq_difference_l _ _ _ (reflexivity _))).
    lia.
Qed.

Lemma collected_after_size (o : list string) (w : list Q) (rng : Rng) (j : nat) :
  (size (collected_after o w rng j) ≤ j)%nat.
Proof.
  unfold collected_after.
  pose proof (size_list_to_set_le
                (filter (λ d, d ≠ "OTHER") (draws o w rng j))).
  pose proof (length_filter (λ d, d ≠ "OTHER") (draws o w rng j)).
  pose proof (draws_length o w rng j). lia.
Qed.


Section trial_helpers.
Context `{RandomModule}.


(** X10.  A player of probability zero is never collected: on a generator
    with values in [0, 1) the trial never returns. *)
Lemma zero_probability_never_returns (players : list TargetPlayer)
    (rng : option Rng) (fuel : nat) (pl : TargetPlayer) :
  valid_input players →
  NoDup (map name players) → "OTHER" ∉ map name players →
  pl ∈ players → (p pl == 0)%Q → unit_range (rng_or_default rng) →
  value (run_single_trial fuel players rng) = OutOfFuel.
Proof.
  intros Hv Hnodup Hother [i Hi]%list_elem_of_lookup Hp Hrange.
  pose proof (build_valid _ Hv) as Hb.
  rewrite (value_run_single_trial _ _ _ _ _ _ Hb).
  apply trial_loop_OutOfFuel.
  - intros r. by eapply build_choices.
  - intros j _ Heq.
    assert (name pl ∈ target_names players) as Ht.
    { unfold target_names. apply elem_of_list_to_set, list_elem_of_fmap.
      exists pl. split; [done|]. by eapply list_elem_of_lookup_2. }
    rewrite <-Heq, (left_id_L ∅ (∪)) in Ht. unfold collected_after in Ht.
    apply elem_of_list_to_set, list_elem_of_filter in Ht as [_ Ht].
    by eapply zero_probability_never_drawn.
Qed.

End trial_helpers.

Section trial_claims.
Context `{RandomModule}.

(** C8.  In the loop of a trial, a draw of the synthetic outcome leaves the
    collected set as it was, and that outcome is never in the set of the
    players seen so far; the trial returns exactly at the first [j] at
    which the players seen in the first [j] draws are the target players,
    and it returns [j], the number of draws made, having moved the
    generator on by [j] draws. *)
Theorem trial_stops_when_collected (players : list TargetPlayer)
    (o : list string) (w : list Q) (c : nat) :
  _build_distribution players = Ok (o, w, c) →
  (∀ (fuel : nat) (collected : gset string) (k : Z) (rng rng' : Rng),
     collected ≠ target_names players →
     choices rng o w = Ok ("OTHER", rng') →
     trial_loop (S fuel) o w (target_names players) collected k rng
     = trial_loop fuel o w (target_names players) collected (k + 1)%Z rng') ∧
  (∀ (rng : Rng) (j : nat), "OTHER" ∉ collected_after o w rng j) ∧
  (∀ (fuel : nat) (rng : option Rng) (k : Z) (rng' : Rng),
     value (run_single_trial fuel players rng) = Ok (k, rng')
     ↔ ∃ j : nat,
         (j ≤ fuel)%nat ∧ k = Z.of_nat j ∧
         rng' = advance (rng_or_default rng) j ∧
         collected_after o w (rng_or_default rng) j = target_names players ∧
         ∀ i : nat, (i < j)%nat →
           collected_after o w (rng_or_default rng) i ≠ target_names players).
Proof.
  intros Hb. split_and!.
  - intros fuel collected k rng rng' Hc Hd.
    rewrite trial_loop_S by done. rewrite Hd. cbn [res_bind].
    by destruct (decide ("OTHER" ≠ "OTHER")).
  - intros rng j. apply OTHER_not_collected.
  - intros fuel rng k rng'. by eapply run_single_trial_first_full.
Qed.

(** C10.  A list with a player named "OTHER" is not rejected — the builder
    returns a distribution whenever the probabilities are valid — but the
    trial on it never returns: whatever the generator and however much
    fuel, the loop is still running. *)
Theorem OTHER_named_player_never_finishes (players : list TargetPlayer) :
  valid_input players → "OTHER" ∈ map name players →
  (∃ d, value (_build_distribution players) = Ok d) ∧
  ∀ (fuel : nat) (rng : option Rng) (r : Z * Rng),
    value (run_single_trial fuel players rng) = OutOfFuel ∧
    value (run_single_trial fuel players rng) ≠ Ok r.
Proof.
  intros Hv Hin. split.
  - rewrite (build_valid _ Hv). by eexists.
  - intros fuel rng r. by rewrite (OTHER_named_never_returns fuel players rng).
Qed.

End trial_claims.

Lemma trial_stops_when_collected_witness :
  _build_distribution [player_A; player_B]
  = Ok (["A"; "B"; "OTHER"], [400 # 800; 1200 # 4000; 1600 # 8000]%Q, 1%nat) ∧
  ∀ (fuel : nat) (rng : option Rng) (k : Z) (rng' : Rng),
    value (run_single_trial (H := alternating_module) fuel
             [player_A; player_B] rng) = Ok (k, rng')
    ↔ ∃ j : nat,
        (j ≤ fuel)%nat ∧ k = Z.of_nat j ∧
        rng' = advance (rng_or_default (H := alternating_module) rng) j ∧
        collected_after ["A"; "B"; "OTHER"]
          [400 # 800; 1200 # 4000; 1600 # 8000]%Q
          (rng_or_default (H := alternating_module) rng) j
        = target_names [player_A; player_B] ∧
        ∀ i : nat, (i < j)%nat →
          collected_after ["A"; "B"; "OTHER"]
            [400 # 800; 1200 # 4000; 1600 # 8000]%Q
            (rng_or_default (H := alternating_module) rng) i
          ≠ target_names [player_A; player_B].
Proof.
  assert (_build_distribution [player_A; player_B]
          = Ok (["A"; "B"; "OTHER"],
                [400 # 800; 1200 # 4000; 1600 # 8000]%Q, 1%nat)) as Hb
    by reflexivity.
  split; [exact Hb|].
  exact (proj2 (proj2 (trial_stops_when_collected (H := alternating_module)
                         _ _ _ _ Hb))).
Defined.

Lemma OTHER_named_player_never_finishes_witness :
  valid_input [player_A; player_OTHER] ∧
  "OTHER" ∈ map name [player_A; player_OTHER] ∧
  (∃ d, value (_build_distribution [player_A; player_OTHER]) = Ok d) ∧
  ∀ (fuel : nat) (rng : option Rng) (r : Z * Rng),
    value (run_single_trial (H := alternating_module) fuel
             [player_A; player_OTHER] rng) = OutOfFuel ∧
    value (run_single_trial (H := alternating_module) fuel
             [player_A; player_OTHER] rng) ≠ Ok r.
Proof.
  assert (valid_input [player_A; player_OTHER]) as Hv.
  { split; [repeat constructor; by vm_compute | by vm_compute]. }
  assert ("OTHER" ∈ map name [player_A; player_OTHER]) as Hin.
  { simpl. apply list_elem_of_further, list_elem_of_here. }
  split_and!; [exact Hv|exact Hin|..];
    apply (OTHER_named_player_never_finishes (H := alternating_module) _ Hv Hin).
Defined.



(** ** The batch *)

Lemma build_cases (players : list TargetPlayer) :
  (∃ o w, _build_distribution players = Ok (o, w, 1%nat)) ∨
  (∃ e, _build_distribution players = Raise e).
Proof.
  destruct (existsb (λ pl, Qltb (p pl) 0) players) eqn:Eneg.
  - right. eexists. apply build_negative. rewrite <-existsb_negative.
    by rewrite Eneg.
  - apply existsb_negative in Eneg.
    destruct (Qlt_le_dec 1 (py_sum (map p players))) as [Hsum|Hsum].
    + right. eexists. by apply build_exceeded.
    + left. eexists _, _. by apply build_valid.
Qed.

Lemma packs_before_0 (rs : list Z) : packs_before rs 0 = 0%nat.
Proof. done. Qed.

Lemma packs_before_S (j : nat) (rs : list Z) (i : nat) :
  Forall (λ r, (0 <= r)%Z) rs →
  packs_before (Z.of_nat j :: rs) (S i) = (j + packs_before rs i)%nat.
Proof.
  intros Hrs. unfold packs_before. cbn [take foldr].
  assert (0 <= foldr Z.add 0 (take i rs))%Z.
  { assert (Forall (λ r, (0 <= r)%Z) (take i rs)) as Ht
      by (by apply Forall_take).
    induction Ht; simpl; lia. }
  lia.
Qed.

Section batch.
Context `{RandomModule}.

(** The trials of a batch, once the distribution is known. *)
Lemma trials_built (fuel : nat) (players : list TargetPlayer) (n : nat)
    (rng : Rng) (o : list string) (w : list Q) (c : nat) :
  _build_distribution players = Ok (o, w, c) →
  trials fuel players n rng
  = match trials_shared fuel o w (target_names players) n rng with
    | Ok res => Ok (res, n)
    | Raise e => Raise e
    | OutOfFuel => OutOfFuel
    end.
Proof.
  intros Hb. revert rng. induction n as [|n IH]; intros rng; [done|].
  cbn [trials trials_shared]. unfold mbind, M_bind, bind.
  rewrite (run_single_trial_built _ _ _ _ _ _ Hb). cbn [rng_or_default].
  destruct (trial_loop _ _ _ _ _ _ _) as [[k rng1]| |]; cbn [res_bind];
    try done.
  rewrite IH.
  destruct (trials_shared _ _ _ _ _ _) as [[rest rng2]| |]; cbn; try done.
  do 2 f_equal. lia.
Qed.

Lemma trials_raises (fuel : nat) (players : list TargetPlayer) (n : nat)
    (rng : Rng) (e : exn) :
  _build_distribution players = Raise e →
  trials fuel players (S n) rng = Raise e.
Proof.
  intros Hb. cbn [trials]. unfold mbind, M_bind, bind.
  by rewrite (run_single_trial_raises _ _ _ _ Hb).
Qed.

(** The batch, case by case. *)
Lemma run_many_trials_built (fuel : nat) (players : list TargetPlayer)
    (n_trials seed : Z) (o : list string) (w : list Q) (c : nat) :
  (0 < n_trials)%Z →
  _build_distribution players = Ok (o, w, c) →
  run_many_trials fuel players n_trials seed
  = match trials_shared fuel o w (target_names players) (Z.to_nat n_trials)
            (Random (Some seed)) with
    | Ok (results, _) => Ok (results, Z.to_nat n_trials)
    | Raise e => Raise e
    | OutOfFuel => OutOfFuel
    end ∧
  run_many_trials_build_once fuel players n_trials seed
  = match trials_shared fuel o w (target_names players) (Z.to_nat n_trials)
            (Random (Some seed)) with
    | Ok (results, _) => Ok (results, 1%nat)
    | Raise e => Raise e
    | OutOfFuel => OutOfFuel
    end.
Proof.
  intros Hn Hb. unfold run_many_trials, run_many_trials_build_once.
  destruct (n_trials <=? 0)%Z eqn:E; [apply Z.leb_le in E; lia|].
  unfold mbind, M_bind, bind. rewrite (trials_built _ _ _ _ _ _ _ Hb).
  pose proof (build_Ok_valid _ _ _ Hb) as Hv.
  rewrite (build_valid _ Hv) in Hb. injection Hb as <- <- <-.
  rewrite (build_valid _ Hv).
  destruct (trials_shared _ _ _ _ _ _) as [[rs rng']| |]; cbn; try done.
  split; do 2 f_equal; lia.
Qed.

Lemma run_many_trials_raises (fuel : nat) (players : list TargetPlayer)
    (n_trials seed : Z) (e : exn) :
  (0 < n_trials)%Z →
  _build_distribution players = Raise e →
  run_many_trials fuel players n_trials seed = Raise e ∧
  run_many_trials_build_once fuel players n_trials seed = Raise e.
Proof.
  intros Hn Hb. unfold run_many_trials, run_many_trials_build_once.
  destruct (n_trials <=? 0)%Z eqn:E; [apply Z.leb_le in E; lia|].
  unfold mbind, M_bind, bind. rewrite Hb.
  destruct (Z.to_nat n_trials) as [|n] eqn:En; [lia|].
  by rewrite (trials_raises _ _ _ _ _ Hb).
Qed.
End batch.

Section shared_trials.
Context (o : list string) (w : list Q) (T : gset string).


(** The trials of a batch consume one generator, one after the other:
    trial [i] starts where trial [i-1] left it. *)
Lemma trials_shared_sequential (fuel : nat) (n : nat) (rng rng' : Rng)
    (rs : list Z) :
  trials_shared fuel o w T n rng = Ok (rs, rng') →
  length rs = n ∧ Forall (λ r, (0 <= r)%Z) rs ∧
  rng' = advance rng (packs_before rs n) ∧
  ∀ (i : nat) (r : Z), rs !! i = Some r →
    trial_loop fuel o w T ∅ 0 (advance rng (packs_before rs i))
    = Ok (r, advance rng (packs_before rs (S i))).
Proof.
  revert rng rs. induction n as [|n IH]; intros rng rs; cbn [trials_shared].
  - intros [= <- <-]. rewrite packs_before_0, advance_0.
    split_and!; [done|constructor|done|]. intros i r. by rewrite lookup_nil.
  - destruct (trial_loop fuel o w T ∅ 0 rng) as [[k r1]| |] eqn:E1;
      cbn [res_bind]; try done.
    destruct (trials_shared fuel o w T n r1) as [[rest g]| |] eqn:F1;
      cbn [res_bind]; try done.
    intros [= <- <-].
    apply trial_loop_counts in E1 as Hcount.
    destruct Hcount as (j & _ & -> & ->). rewrite Z.add_0_l in E1.
    destruct (IH _ _ F1) as (Hlen & Hpos & -> & Hseq).
    rewrite Z.add_0_l.
    split_and!.
    + simpl. by rewrite Hlen.
    + constructor; [lia|done].
    + by rewrite packs_before_S, advance_advance.
    + intros [|i] r; cbn [lookup list_lookup].
      * intros [= <-]. rewrite packs_before_0, advance_0.
        rewrite (packs_before_S j rest 0 Hpos), packs_before_0, Nat.add_0_r.
        done.
      * intros Hi. rewrite !packs_before_S, <-!advance_advance by done.
        by apply Hseq.
Qed.
End shared_trials.

Section batch_claims.
Context `{RandomModule}.


(** C9, amended.  The batch does not build the distribution once: each of
    its trials enters the builder, so a batch of [n] trials that returns has
    built it [n] times.  This is result-equivalent to building it once
    before the trials: both variants return the same results, or raise the
    same error, on the same players, trial count and seed. *)
Theorem run_many_trials_rebuilds_per_trial (fuel : nat)
    (players : list TargetPlayer) (n_trials seed : Z) :
  value (run_many_trials fuel players n_trials seed)
  = value (run_many_trials_build_once fuel players n_trials seed) ∧
  ∀ rs : list Z,
    value (run_many_trials fuel players n_trials seed) = Ok rs →
    builder_calls (run_many_trials fuel players n_trials seed)
    = Some (Z.to_nat n_trials) ∧
    builder_calls (run_many_trials_build_once fuel players n_trials seed)
    = Some 1%nat.
Proof.
  destruct (n_trials <=? 0)%Z eqn:E.
  { unfold run_many_trials, run_many_trials_build_once. rewrite E.
    split; [done|]. by intros rs [=]. }
  apply Z.leb_gt in E.
  destruct (build_cases players) as [(o & w & Hb)|[e Hb]].
  - destruct (run_many_trials_built fuel _ _ seed _ _ _ E Hb) as [-> ->].
    by destruct (trials_shared _ _ _ _ _ _) as [[rs' g]| |].
  - destruct (run_many_trials_raises fuel _ _ seed _ E Hb) as [-> ->].
    split; [done|]. by intros rs [=].
Qed.
End batch_claims.


(** C9, as stated, fails: a batch of three trials enters the builder three
    times, not once. *)
Lemma run_many_trials_builds_three_times :
  value (run_many_trials (H := constant_module 0) 5 [player_A] 3 42)
  = Ok [1; 1; 1]%Z ∧
  builder_calls (run_many_trials (H := constant_module 0) 5 [player_A] 3 42)
  = Some 3%nat ∧
  builder_calls (run_many_trials (H := constant_module 0) 5 [player_A] 3 42)
  ≠ Some 1%nat.
Proof. split_and!; [reflexivity|reflexivity|by vm_compute]. Qed.

Lemma run_many_trials_rebuilds_per_trial_witness :
  value (run_many_trials (H := constant_module 0) 5 [player_A] 3 42)
  = Ok [1; 1; 1]%Z ∧
  builder_calls (run_many_trials (H := constant_module 0) 5 [player_A] 3 42)
  = Some (Z.to_nat 3) ∧
  builder_calls
    (run_many_trials_build_once (H := constant_module 0) 5 [player_A] 3 42)
  = Some 1%nat.
Proof.
  assert (value (run_many_trials (H := constant_module 0) 5 [player_A] 3 42)
          = Ok [1; 1; 1]%Z) as Hv by reflexivity.
  split; [exact Hv|].
  exact (proj2 (run_many_trials_rebuilds_per_trial (H := constant_module 0)
                  5 [player_A] 3 42) [1; 1; 1]%Z Hv).
Defined.


(** ** The scenarios of the specification *)

Example negative_probability_rejected :
  value (_build_distribution [player_A; player_negative])
  = Raise InvalidProbability.
Proof. reflexivity. Qed.

(** Probabilities 0.6 and 0.5 sum to 1.1. *)
Example sum_above_one_rejected :
  value (_build_distribution [player_heavy; player_A])
  = Raise (ProbabilityBudgetExceeded (py_sum [3 # 5; 1 # 2]%Q)) ∧
  (py_sum [3 # 5; 1 # 2] == 11 # 10)%Q.
Proof. split; [reflexivity|by vm_compute]. Qed.

(** The comparison with 1.0 has no tolerance: 1 + 1e-12 is rejected. *)
Example sum_just_above_one_rejected :
  ∃ v, value (_build_distribution [player_just_over])
       = Raise (ProbabilityBudgetExceeded v).
Proof. eexists. reflexivity. Qed.

Example quantile_out_of_range : quantile [1; 2; 3; 4]%Z (3 # 2) = Raise InvalidQuantile.
Proof. reflexivity. Qed.

Example quantile_of_nothing : quantile [] (1 # 2) = Raise EmptyResultSet.
Proof. reflexivity. Qed.

(** A batch needs a positive number of trials. *)
Lemma run_many_trials_trial_count `{RandomModule} (fuel : nat)
    (players : list TargetPlayer) (n_trials seed : Z) :
  (n_trials <= 0)%Z →
  run_many_trials fuel players n_trials seed = Raise InvalidTrialCount.
Proof.
  intros Hn. unfold run_many_trials.
  by apply Z.leb_le in Hn as ->.
Qed.

(** Items A (0.5) and B (0.3): every trial of a batch needs at least two
    draws. *)
Lemma two_players_need_two_draws `{RandomModule} (fuel : nat)
    (n_trials seed : Z) (rs : list Z) :
  value (run_many_trials fuel [player_A; player_B] n_trials seed) = Ok rs →
  length rs = Z.to_nat n_trials ∧ Forall (λ r, (2 <= r)%Z) rs.
Proof.
  intros Hrs.
  assert (0 < n_trials)%Z as Hn.
  { destruct (n_trials <=? 0)%Z eqn:E; [|apply Z.leb_gt in E; lia].
    unfold run_many_trials in Hrs. by rewrite E in Hrs. }
  assert (valid_input [player_A; player_B]) as Hv.
  { split; [repeat constructor; by vm_compute | by vm_compute]. }
  pose proof (build_valid _ Hv) as Hb.
  destruct (run_many_trials_built fuel _ _ seed _ _ _ Hn Hb) as [E _].
  rewrite E in Hrs.
  destruct (trials_shared fuel _ _ _ _ _) as [[rs' g]| |] eqn:F; try done.
  cbn [value] in Hrs. injection Hrs as ->.
  destruct (trials_shared_sequential _ _ _ _ _ _ _ _ F)
    as (Hlen & _ & _ & Hseq).
  split; [done|]. apply Forall_lookup_2. intros i r Hi.
  specialize (Hseq i r Hi).
  rewrite trial_loop_first_full in Hseq
    by (intros g'; by eapply build_choices).
  destruct Hseq as (j & _ & -> & _ & Hfull & _).
  rewrite (left_id_L ∅ (∪)) in Hfull.
  pose proof (collected_after_size
                (map name [player_A; player_B] ++ ["OTHER"])
                (map (λ x, (x / py_sum (raw_weights [player_A; player_B]))%Q)
                   (raw_weights [player_A; player_B]))
                (advance (Random (Some seed)) (packs_before rs i)) j) as Hsize.
  rewrite Hfull in Hsize.
  assert (size (target_names [player_A; player_B]) = 2%nat) as Hsz
    by (by vm_compute).
  lia.
Qed.

(** * More of the code *)

(** ** More on the quantile *)

Lemma Sorted_nth_le (l : list Z) (i j : nat) :
  Sorted Z.le l → (i ≤ j < length l)%nat →
  (nth i l 0 <= nth j l 0)%Z.
Proof.
  intros Hs%Sorted_StronglySorted; [|apply _]. revert i j.
  induction Hs as [|x l Hs IH Hx]; intros i j Hij; cbn [length] in Hij; [lia|].
  destruct i as [|i], j as [|j]; cbn [nth]; try lia.
  - rewrite Forall_forall in Hx. apply Hx, list_elem_of_In, nth_In. lia.
  - apply IH. lia.
Qed.

(** The fractional part of the rank. *)
Lemma rank_fraction (x : Q) :
  (0 <= x - inject_Z (Qfloor x))%Q ∧ (x - inject_Z (Qfloor x) < 1)%Q.
Proof.
  pose proof (Qfloor_le x). pose proof (Qlt_floor x) as Hlt.
  rewrite inject_Z_plus in Hlt. change (inject_Z 1) with 1%Q in Hlt.
  split; lra.
Qed.

Lemma convex_between (a b lo hi f : Q) :
  (lo <= a)%Q → (a <= hi)%Q → (lo <= b)%Q → (b <= hi)%Q →
  (0 <= f)%Q → (f <= 1)%Q →
  (lo <= a * (1 - f) + b * f)%Q ∧ (a * (1 - f) + b * f <= hi)%Q.
Proof.
  intros Ha1 Ha2 Hb1 Hb2 Hf0 Hf1.
  assert (lo * (1 - f) <= a * (1 - f))%Q by (apply Qmult_le_compat_r; lra).
  assert (a * (1 - f) <= hi * (1 - f))%Q by (apply Qmult_le_compat_r; lra).
  assert (lo * f <= b * f)%Q by (by apply Qmult_le_compat_r).
  assert (b * f <= hi * f)%Q by (by apply Qmult_le_compat_r).
  split; lra.
Qed.

Lemma Ok_inj {A} (a b : A) : Ok a = Ok b → a = b.
Proof. by intros [= ->]. Qed.

Lemma quantile_Ok_inv (vals : list Z) (q v : Q) :
  quantile vals q = Ok v → vals ≠ [] ∧ (0 <= q)%Q ∧ (q <= 1)%Q.
Proof.
  unfold quantile. destruct (Qle_bool 0 q && Qle_bool q 1) eqn:Eq; [|done].
  apply andb_true_iff in Eq as [H0%Qle_bool_iff H1%Qle_bool_iff].
  cbn [negb]. destruct vals as [|x vals]; [done|]. by intros _.
Qed.

(** A quantile stays within any bounds that hold for all the values. *)
Lemma quantile_within (vals : list Z) (q v : Q) (a b : Z) :
  quantile vals q = Ok v →
  Forall (λ x, (a <= x <= b)%Z) vals →
  (inject_Z a <= v)%Q ∧ (v <= inject_Z b)%Q.
Proof.
  intros Hq Hall. destruct (quantile_Ok_inv _ _ _ Hq) as (Hne & H0 & H1).
  rewrite (quantile_returns vals q Hne H0 H1) in Hq.
  apply Ok_inj in Hq. subst v.
  assert (1 <= Z.of_nat (length vals))%Z as Hn
    by (destruct vals; [done|simpl; lia]).
  destruct (rank_bounds _ q Hn H0 H1) as (_ & _ & Hlo).
  set (pos := (inject_Z (Z.of_nat (length vals) - 1) * q)%Q) in *.
  destruct (rank_fraction pos) as [Hf0 Hf1].
  assert (∀ i : Z, (0 <= i < Z.of_nat (length vals))%Z →
            (a <= nth (Z.to_nat i) vals 0 <= b)%Z) as Hnth.
  { intros i Hi. rewrite Forall_forall in Hall.
    apply Hall, list_elem_of_In, nth_In. lia. }
  pose proof (Hnth (Qfloor pos) ltac:(lia)) as [Ha1 Hb1].
  pose proof (Hnth (Z.min (Qfloor pos + 1) (Z.of_nat (length vals) - 1))
                ltac:(lia)) as [Ha2 Hb2].
  rewrite Zle_Qle in Ha1, Hb1, Ha2, Hb2.
  apply convex_between; lra.
Qed.

(** On a list in ascending order a larger [q] gives a larger quantile. *)
Lemma quantile_le (vals : list Z) (q1 q2 v1 v2 : Q) :
  Sorted Z.le vals → (q1 <= q2)%Q →
  quantile vals q1 = Ok v1 → quantile vals q2 = Ok v2 →
  (v1 <= v2)%Q.
Proof.
  intros Hs H12 Hq1 Hq2.
  destruct (quantile_Ok_inv _ _ _ Hq1) as (Hne & H0 & H1').
  destruct (quantile_Ok_inv _ _ _ Hq2) as (_ & H0' & H1).
  rewrite (quantile_returns vals q1 Hne H0 H1') in Hq1.
  apply Ok_inj in Hq1. subst v1.
  rewrite (quantile_returns vals q2 Hne H0' H1) in Hq2.
  apply Ok_inj in Hq2. subst v2.
  assert (1 <= Z.of_nat (length vals))%Z as Hn
    by (destruct vals; [done|simpl; lia]).
  set (n := Z.of_nat (length vals)) in *.
  destruct (rank_bounds n q1 Hn H0 H1') as (Hp1 & _ & Hlo1).
  destruct (rank_bounds n q2 Hn H0' H1) as (Hp2 & _ & Hlo2).
  assert (inject_Z (n - 1) * q1 <= inject_Z (n - 1) * q2)%Q as Hpos.
  { rewrite !(Qmult_comm (inject_Z (n - 1))). apply Qmult_le_compat_r; [done|].
    change 0%Q with (inject_Z 0). rewrite <-Zle_Qle. lia. }
  set (pos1 := (inject_Z (n - 1) * q1)%Q) in *.
  set (pos2 := (inject_Z (n - 1) * q2)%Q) in *.
  pose proof (Qfloor_resp_le _ _ Hpos) as Hlo.
  destruct (rank_fraction pos1) as [Hf1 Hf1'].
  destruct (rank_fraction pos2) as [Hf2 Hf2'].
  set (lo1 := Qfloor pos1) in *. set (lo2 := Qfloor pos2) in *.
  assert (∀ i j : Z, (0 <= i)%Z → (i <= j)%Z → (j < n)%Z →
            (inject_Z (nth (Z.to_nat i) vals 0%Z) <=
             inject_Z (nth (Z.to_nat j) vals 0%Z))%Q) as Hmono.
  { intros i j Hi Hij Hj. rewrite <-Zle_Qle.
    apply Sorted_nth_le; [done|]. subst n. lia. }
  pose proof (Hmono lo1 (Z.min (lo1 + 1) (n - 1)) ltac:(lia) ltac:(lia)
                ltac:(lia)) as Hab1.
  pose proof (Hmono lo2 (Z.min (lo2 + 1) (n - 1)) ltac:(lia) ltac:(lia)
                ltac:(lia)) as Hab2.
  set (a1 := inject_Z (nth (Z.to_nat lo1) vals 0%Z)) in *.
  set (b1 := inject_Z (nth (Z.to_nat (Z.min (lo1 + 1) (n - 1))) vals 0%Z)) in *.
  set (a2 := inject_Z (nth (Z.to_nat lo2) vals 0%Z)) in *.
  set (b2 := inject_Z (nth (Z.to_nat (Z.min (lo2 + 1) (n - 1))) vals 0%Z)) in *.
  destruct (convex_between a1 b1 a1 b1 (pos1 - inject_Z lo1))
    as [_ Hv1]; try lra.
  destruct (convex_between a2 b2 a2 b2 (pos2 - inject_Z lo2))
    as [Hv2 _]; try lra.
  destruct (decide (lo1 = lo2)) as [Heq|Hneq].
  - subst a2 b2. rewrite <-Heq in *. fold a1 b1.
    assert (0 <= (b1 - a1) * ((pos2 - inject_Z lo1) - (pos1 - inject_Z lo1)))%Q
      by (apply Qmult_le_0_compat; lra).
    lra.
  - assert (b1 <= a2)%Q by (apply Hmono; lia). lra.
Qed.




(** ** More on the builder *)



(** ** More on one trial *)


Section more_trial.
Context `{RandomModule}.


(** X7.  A trial that returns made at least as many draws as there are
    distinct target names. *)
Theorem run_single_trial_at_least_distinct_names (fuel : nat)
    (players : list TargetPlayer) (rng : option Rng) (k : Z) (rng' : Rng) :
  value (run_single_trial fuel players rng) = Ok (k, rng') →
  (Z.of_nat (size (target_names players)) <= k)%Z.
Proof.
  intros Hr. destruct (build_cases players) as [(o & w & Hb)|[e' Hb]].
  - destruct (proj1 (run_single_trial_first_full _ _ _ _ _ _ _ _ Hb) Hr)
      as (j & _ & -> & _ & Hfull & _).
    pose proof (collected_after_size o w (rng_or_default rng) j) as Hsize.
    rewrite Hfull in Hsize. lia.
  - by rewrite (run_single_trial_raises _ _ _ _ Hb) in Hr.
Qed.

End more_trial.


(** ** More on the batch *)


Lemma trials_shared_prefix (o : list string) (w : list Q) (T : gset string)
    (fuel m n : nat) (rng g : Rng) (rs : list Z) :
  (m ≤ n)%nat →
  trials_shared fuel o w T n rng = Ok (rs, g) →
  ∃ g', trials_shared fuel o w T m rng = Ok (take m rs, g').
Proof.
  revert n rng g rs. induction m as [|m IH]; intros n rng g rs Hmn.
  - intros _. by eexists.
  - destruct n as [|n]; [lia|]. cbn [trials_shared].
    destruct (trial_loop fuel o w T ∅ 0 rng) as [[k r1]| |]; cbn [res_bind];
      try done.
    destruct (trials_shared fuel o w T n r1) as [[rest g1]| |] eqn:F;
      cbn [res_bind]; try done.
    intros [= <- <-].
    destruct (IH n r1 g1 rest ltac:(lia) F) as [g' ->].
    by eexists.
Qed.

(** Each trial of a batch makes at least as many draws as there are names
    to collect. *)
Lemma trials_shared_bounded (o : list string) (w : list Q) (T : gset string)
    (fuel n : nat) (rng g : Rng) (rs : list Z) :
  (∀ r, ∃ d, choices r o w = Ok (d, advance r 1)) →
  trials_shared fuel o w T n rng = Ok (rs, g) →
  length rs = n ∧ Forall (λ r, (Z.of_nat (size T) <= r)%Z) rs.
Proof.
  intros Hch F.
  destruct (trials_shared_sequential _ _ _ _ _ _ _ _ F)
    as (Hlen & _ & _ & Hseq).
  split; [done|]. apply Forall_lookup_2. intros i r Hi.
  specialize (Hseq i r Hi).
  rewrite trial_loop_first_full in Hseq by done.
  destruct Hseq as (j & _ & -> & _ & Hfull & _).
  rewrite (left_id_L ∅ (∪)) in Hfull.
  pose proof (collected_after_size o w (advance rng (packs_before rs i)) j)
    as Hsize.
  rewrite Hfull in Hsize. lia.
Qed.

Section more_batch.
Context `{RandomModule}.


(** X12.  A batch that returns has one result per trial, and every result is at
    least the number of distinct target names. *)
Theorem run_many_trials_results_bounded (fuel : nat)
    (players : list TargetPlayer) (n_trials seed : Z) (rs : list Z) :
  value (run_many_trials fuel players n_trials seed) = Ok rs →
  Z.of_nat (length rs) = n_trials ∧
  Forall (λ r, (Z.of_nat (size (target_names players)) <= r)%Z) rs.
Proof.
  intros Hrs.
  assert (0 < n_trials)%Z as Hn.
  { destruct (Z_le_gt_dec n_trials 0) as [Hn|Hn]; [|lia].
    by rewrite (run_many_trials_trial_count _ _ _ _ Hn) in Hrs. }
  destruct (build_cases players) as [(o & w & Hb)|[e' Hb]].
  2:{ destruct (run_many_trials_raises fuel _ _ seed _ Hn Hb) as [E _].
      by rewrite E in Hrs. }
  destruct (run_many_trials_built fuel _ _ seed _ _ _ Hn Hb) as [E _].
  rewrite E in Hrs.
  destruct (trials_shared fuel _ _ _ _ _) as [[rs' g]| |] eqn:F; try done.
  cbn [value] in Hrs. injection Hrs as ->.
  destruct (trials_shared_bounded _ _ _ _ _ _ _ _
              ltac:(intros r; by eapply build_choices) F) as [Hlen Hall].
  split; [lia|done].
Qed.

(** X13.  With the same seed, a shorter batch returns the first results of a
    longer one. *)
Theorem run_many_trials_prefix (fuel : nat) (players : list TargetPlayer)
    (m n seed : Z) (rs : list Z) :
  (0 < m)%Z → (m <= n)%Z →
  value (run_many_trials fuel players n seed) = Ok rs →
  value (run_many_trials fuel players m seed) = Ok (take (Z.to_nat m) rs).
Proof.
  intros Hm Hmn Hrs.
  destruct (build_cases players) as [(o & w & Hb)|[e' Hb]].
  2:{ destruct (run_many_trials_raises fuel _ n seed _ ltac:(lia) Hb)
        as [E _]. by rewrite E in Hrs. }
  destruct (run_many_trials_built fuel _ n seed _ _ _ ltac:(lia) Hb) as [E _].
  destruct (run_many_trials_built fuel _ m seed _ _ _ Hm Hb) as [-> _].
  rewrite E in Hrs.
  destruct (trials_shared fuel _ _ _ (Z.to_nat n) _) as [[rs' g]| |] eqn:F;
    try done.
  cbn [value] in Hrs. injection Hrs as ->.
  destruct (trials_shared_prefix _ _ _ fuel (Z.to_nat m) (Z.to_nat n) _ _ _
              ltac:(lia) F) as [g' ->].
  done.
Qed.

(** X14.  With no players nothing is drawn: a trial returns 0 and leaves the
    generator where it was, and a batch returns a zero per trial. *)
Theorem no_players_no_draws (fuel : nat) (rng : option Rng)
    (n_trials seed : Z) :
  value (run_single_trial fuel [] rng) = Ok (0%Z, rng_or_default rng) ∧
  ((0 < n_trials)%Z →
   value (run_many_trials fuel [] n_trials seed)
   = Ok (replicate (Z.to_nat n_trials) 0%Z)).
Proof.
  assert (valid_input []) as Hv by (split; [constructor|by vm_compute]).
  pose proof (build_valid _ Hv) as Hb. split.
  - rewrite (value_run_single_trial _ _ _ _ _ _ Hb).
    by apply trial_loop_done.
  - intros Hn.
    destruct (run_many_trials_built fuel _ _ seed _ _ _ Hn Hb) as [-> _].
    assert (∀ (k : nat) (g : Rng),
              trials_shared fuel (map name [] ++ ["OTHER"])
                (map (λ x, (x / py_sum (raw_weights []))%Q) (raw_weights []))
                (target_names []) k g
              = Ok (replicate k 0%Z, g)) as ->; [|done].
    induction k as [|k IH]; intros g; cbn [trials_shared]; [done|].
    rewrite trial_loop_done by done. cbn [res_bind]. by rewrite IH.
Qed.
End more_batch.

(** ** The loader *)

Section loader.
Context `{Builtins}.

(** What the loop body accepts: a record with both columns filled and a
    probability that [float] can read. *)
Lemma load_record_Done (row : record) (pl : TargetPlayer) :
  load_record row = Done pl
  ↔ ∃ text_name text_p : string,
      row !! "player_name" = Some (Some text_name) ∧
      row !! "p" = Some (Some text_p) ∧
      name pl = str_strip text_name ∧
      float_of_str text_p = Some (p pl).
Proof.
  unfold load_record, record_getitem, py_strip, py_float, mbind, Run_bind.
  destruct (row !! "player_name") as [[tn|]|] eqn:En;
    [|split; [done|by intros (? & ? & [=] & _)]..].
  destruct (row !! "p") as [[tp|]|] eqn:Ep;
    [|split; [done|by intros (? & ? & _ & [=] & _)]..].
  destruct (float_of_str tp) as [x|] eqn:Ef.
  - split.
    + intros [= <-]. by exists tn, tp.
    + intros (? & ? & [= <-] & [= <-] & Hn & Hp). destruct pl as [n x'].
      cbn in Hn, Hp. rewrite Ef in Hp. by injection Hp as ->; subst.
  - split; [done|]. intros (? & ? & _ & [= <-] & _ & Hp). by rewrite Ef in Hp.
Qed.

Lemma load_record_finishes (row : record) : load_record row ≠ Unfinished.
Proof.
  unfold load_record, record_getitem, py_strip, py_float, mbind, Run_bind.
  destruct (row !! "player_name") as [[tn|]|]; try done.
  destruct (row !! "p") as [[tp|]|]; try done.
  by destruct (float_of_str tp).
Qed.

Lemma load_records_Done (reader : list record) (acc players : list TargetPlayer) :
  load_records reader acc = Done players
  ↔ ∃ new : list TargetPlayer,
      players = acc ++ new ∧
      Forall2 (λ row pl, load_record row = Done pl) reader new.
Proof.
  revert acc. induction reader as [|row reader IH]; intros acc;
    cbn [load_records].
  - split.
    + intros [= <-]. exists []. by rewrite app_nil_r.
    + intros (new & -> & ->%Forall2_nil_inv_l). by rewrite app_nil_r.
  - unfold mbind, Run_bind.
    destruct (load_record row) as [pl| |] eqn:E.
    + rewrite IH. split.
      * intros (new & -> & Hnew). exists (pl :: new).
        rewrite <-(assoc_L (++)). split; [done|by constructor].
      * intros (new & -> & Hnew).
        apply Forall2_cons_inv_l in Hnew as (pl' & new' & Hpl & Hnew' & ->).
        rewrite E in Hpl. injection Hpl as <-.
        exists new'. by rewrite <-(assoc_L (++)).
    + split; [done|]. intros (new & _ & Hnew).
      apply Forall2_cons_inv_l in Hnew as (pl' & new' & Hpl & _).
      by rewrite E in Hpl.
    + split; [done|]. intros (new & _ & Hnew).
      apply Forall2_cons_inv_l in Hnew as (pl' & new' & Hpl & _).
      by rewrite E in Hpl.
Qed.

Lemma load_records_Failed (good rest : list record) (bad : record)
    (acc : list TargetPlayer) (e : py_exn) :
  Forall (λ row, ∃ pl, load_record row = Done pl) good →
  load_record bad = Failed e →
  load_records (good ++ bad :: rest) acc = Failed e.
Proof.
  intros Hgood Hbad. revert acc.
  induction Hgood as [|row good [pl Hpl] _ IH]; intros acc;
    cbn [app load_records]; unfold mbind, Run_bind.
  - by rewrite Hbad.
  - rewrite Hpl. apply IH.
Qed.

(** X15.  The loader returns exactly when the file has at least one record and
    every record has both columns filled with a probability that [float]
    reads; it then returns one player per record, in the order of the file,
    with the name stripped and the probability as read — whatever its
    value, negative or above 1 included. *)
Theorem load_target_squad_csv_returns (path : string)
    (players : list TargetPlayer) :
  load_target_squad_csv path = Done players
  ↔ dict_reader path ≠ [] ∧
    Forall2 (λ row pl,
               ∃ text_name text_p : string,
                 row !! "player_name" = Some (Some text_name) ∧
                 row !! "p" = Some (Some text_p) ∧
                 name pl = str_strip text_name ∧
                 float_of_str text_p = Some (p pl))
      (dict_reader path) players.
Proof.
  assert (load_records (dict_reader path) [] = Done players
          ↔ Forall2 (λ row pl,
               ∃ text_name text_p : string,
                 row !! "player_name" = Some (Some text_name) ∧
                 row !! "p" = Some (Some text_p) ∧
                 name pl = str_strip text_name ∧
                 float_of_str text_p = Some (p pl))
              (dict_reader path) players) as <-.
  { rewrite load_records_Done. split.
    - intros (new & -> & HF). cbn [app].
      eapply Forall2_impl; [exact HF|]. intros row pl. apply load_record_Done.
    - intros HF. exists players. split; [done|].
      eapply Forall2_impl; [exact HF|]. intros row pl. apply load_record_Done. }
  unfold load_target_squad_csv, mbind, Run_bind.
  destruct (load_records (dict_reader path) []) as [ps| |] eqn:E;
    [|split; [done|by intros [_ ?]]..].
  apply load_records_Done in E as (new & -> & Hnew). cbn [app].
  destruct new as [|pl new].
  - apply Forall2_nil_inv_r in Hnew. split; [done|]. by intros [? _].
  - split; [|by intros [_ ?]]. intros Hd. split; [|done].
    intros Hr. rewrite Hr in Hnew. by apply Forall2_nil_inv_l in Hnew.
Qed.

(** X16.  The loader raises "CSV contains no players." exactly when the file
    has no record. *)
Theorem load_target_squad_csv_no_players (path : string) :
  load_target_squad_csv path
  = Failed (Core (ValueError "CSV contains no players."))
  ↔ dict_reader path = [].
Proof.
  unfold load_target_squad_csv, mbind, Run_bind. split.
  - destruct (load_records (dict_reader path) []) as [ps|e|] eqn:E; [| |done].
    + apply load_records_Done in E as (new & -> & Hnew). cbn [app].
      destruct new; [|done]. by apply Forall2_nil_inv_r in Hnew.
    + intros [= ->]. destruct (dict_reader path) as [|row rows]; [done|].
      exfalso. revert E. generalize (@nil TargetPlayer).
      induction (row :: rows) as [|r rs IH]; intros acc; cbn [load_records];
        [done|].
      unfold mbind, Run_bind.
      destruct (load_record r) as [pl|e|] eqn:Er; [apply IH| |done].
      intros [= ->]. revert Er.
      unfold load_record, record_getitem, py_strip, py_float, mbind, Run_bind.
      destruct (r !! "player_name") as [[tn|]|]; try done.
      destruct (r !! "p") as [[tp|]|]; try done.
      by destruct (float_of_str tp).
  - by intros ->.
Qed.

(** X17.  The first record that the loop body rejects decides the error of the
    loader; the records after it are not looked at. *)
Theorem load_target_squad_csv_first_bad_record (path : string)
    (good rest : list record) (bad : record) (e : py_exn) :
  dict_reader path = good ++ bad :: rest →
  Forall (λ row, ∃ pl, load_record row = Done pl) good →
  load_record bad = Failed e →
  load_target_squad_csv path = Failed e.
Proof.
  intros Hrows Hgood Hbad. unfold load_target_squad_csv, mbind, Run_bind.
  by rewrite Hrows, (load_records_Failed good rest bad [] e Hgood Hbad).
Qed.
End loader.

(** ** [main] *)

Lemma py_sorted_Sorted (xs : list Z) : Sorted Z.le (py_sorted xs).
Proof. apply Sorted_merge_sort. apply _. Qed.

Lemma py_sorted_Permutation (xs : list Z) : py_sorted xs ≡ₚ xs.
Proof. apply merge_sort_Permutation. Qed.

Lemma py_sum_int_from (xs : list Z) (a : Z) :
  fold_left Z.add xs a = (a + py_sum_int xs)%Z.
Proof.
  unfold py_sum_int. revert a. induction xs as [|x xs IH]; intros a; simpl.
  - lia.
  - rewrite (IH (a + x)%Z), (IH (0 + x)%Z). lia.
Qed.

Lemma py_sum_int_ge (xs : list Z) (c : Z) :
  Forall (λ x, (c <= x)%Z) xs →
  (c * Z.of_nat (length xs) <= py_sum_int xs)%Z.
Proof.
  induction 1 as [|x xs Hx _ IH].
  - unfold py_sum_int. simpl. lia.
  - unfold py_sum_int. cbn [fold_left length].
    rewrite py_sum_int_from. lia.
Qed.

Lemma mean_ge (xs : list Z) (c : Z) (mean : Q) :
  xs ≠ [] → Forall (λ x, (c <= x)%Z) xs →
  py_div (inject_Z (py_sum_int xs)) (inject_Z (Z.of_nat (length xs))) = Ok mean →
  (inject_Z c <= mean)%Q.
Proof.
  intros Hne Hall. unfold py_div.
  destruct (Qeq_bool _ 0); [done|]. intros Hm. apply Ok_inj in Hm. subst mean.
  assert (0 < Z.of_nat (length xs))%Z as Hlen
    by (destruct xs; [done|simpl; lia]).
  apply Qle_shift_div_l.
  - change 0%Q with (inject_Z 0). by rewrite <-Zlt_Qlt.
  - rewrite <-inject_Z_mult, <-Zle_Qle. by apply py_sum_int_ge.
Qed.

Section main.
Context `{RandomModule} `{Builtins}.

(** The loader never returns an empty list, so there is a name to collect. *)
Lemma load_target_squad_csv_nonempty_names (path : string)
    (players : list TargetPlayer) :
  load_target_squad_csv path = Done players →
  (1 <= size (target_names players))%nat.
Proof.
  unfold load_target_squad_csv, mbind, Run_bind.
  destruct (load_records (dict_reader path) []) as [[|pl ps]| |]; try done.
  intros [= <-].
  assert (name pl ∈ target_names (pl :: ps)) as Hin.
  { unfold target_names. apply elem_of_list_to_set. apply list_elem_of_here. }
  destruct (size (target_names (pl :: ps))) eqn:E; [|lia].
  apply size_empty_inv in E. by rewrite E in Hin.
Qed.

(** What [main] does once the batch has returned. *)
Lemma main_after_batch (fuel : nat) (players : list TargetPlayer)
    (results : list Z) :
  load_target_squad_csv CSV_PATH = Done players →
  value (run_many_trials fuel players N_TRIALS SEED) = Ok results →
  ∃ mean median q95 : Q,
    py_div (inject_Z (py_sum_int results))
      (inject_Z (Z.of_nat (length results))) = Ok mean ∧
    quantile (py_sorted results) (1 # 2) = Ok median ∧
    quantile (py_sorted results) (95 # 100) = Ok q95 ∧
    results ≠ [] ∧
    Forall (λ r, (Z.of_nat (size (target_names players)) <= r)%Z) results ∧
    main fuel
    = Done {| report_trials := N_TRIALS;
              pack_price := PACK_PRICE_EUR;
              mean_packs := mean;
              mean_cost := (mean * PACK_PRICE_EUR)%Q;
              median_packs := median;
              median_cost := (median * PACK_PRICE_EUR)%Q;
              q95_packs := q95;
              q95_cost := (q95 * PACK_PRICE_EUR)%Q |}.
Proof.
  intros Hload Hrs.
  assert (length results = Z.to_nat N_TRIALS ∧
          Forall (λ r, (Z.of_nat (size (target_names players)) <= r)%Z) results)
    as [Hlen Hall].
  { destruct (build_cases players) as [(o & w & Hb)|[e' Hb]].
    2:{ destruct (run_many_trials_raises fuel _ N_TRIALS SEED _
                    ltac:(done) Hb) as [E _]. by rewrite E in Hrs. }
    destruct (run_many_trials_built fuel _ N_TRIALS SEED _ _ _
                ltac:(done) Hb) as [E _].
    rewrite E in Hrs.
    destruct (trials_shared fuel _ _ _ _ _) as [[rs' g]| |] eqn:F; try done.
    cbn [value] in Hrs. apply Ok_inj in Hrs. subst rs'.
    destruct (trials_shared_bounded _ _ _ _ _ _ _ _
                ltac:(intros r; by eapply build_choices) F) as [Hlen Hall].
    done. }
  assert (results ≠ []) as Hne.
  { intros ->. cbn [length] in Hlen. unfold N_TRIALS in Hlen. lia. }
  assert (py_sorted results ≠ []) as Hne'.
  { intros E. pose proof (py_sorted_Permutation results) as Hp.
    rewrite E in Hp. by apply Permutation_nil_l in Hp. }
  pose proof (quantile_returns (py_sorted results) (1 # 2) Hne'
                ltac:(done) ltac:(done)) as Hmed.
  pose proof (quantile_returns (py_sorted results) (95 # 100) Hne'
                ltac:(done) ltac:(done)) as Hq95.
  cbv zeta in Hmed, Hq95.
  assert (py_div (inject_Z (py_sum_int results))
            (inject_Z (Z.of_nat (length results)))
          = Ok (inject_Z (py_sum_int results)
                / inject_Z (Z.of_nat (length results)))%Q) as Hmean.
  { unfold py_div.
    destruct (Qeq_bool (inject_Z (Z.of_nat (length results))) 0) eqn:E;
      [|done].
    apply Qeq_bool_eq in E. unfold Qeq in E. cbn in E.
    destruct results; [done|]. cbn [length] in E. lia. }
  eexists _, _, _. split_and!; [exact Hmean|exact Hmed|exact Hq95|done|done|].
  unfold main, mbind, Run_bind. rewrite Hload, Hrs. cbn [of_core].
  rewrite Hmean. cbn [of_core]. rewrite Hmed. cbn [of_core].
  rewrite Hq95. reflexivity.
Qed.


(** X19.  What a report of [main] guarantees.  It is over 10000 trials; the
    mean, the median and the 95% quantile are each at least the number of
    distinct names loaded, which is at least 1; the median is at most the
    95% quantile; and the costs, 10 per pack, are in the same order. *)
Theorem main_report_is_consistent (fuel : nat) (rep : Report) :
  main fuel = Done rep →
  ∃ players : list TargetPlayer,
    load_target_squad_csv CSV_PATH = Done players ∧
    report_trials rep = 10000%Z ∧
    (1 <= size (target_names players))%nat ∧
    (inject_Z (Z.of_nat (size (target_names players))) <= mean_packs rep)%Q ∧
    (inject_Z (Z.of_nat (size (target_names players))) <= median_packs rep)%Q ∧
    (median_packs rep <= q95_packs rep)%Q ∧
    (median_cost rep <= q95_cost rep)%Q ∧
    (mean_cost rep == 10 * mean_packs rep)%Q.
Proof.
  intros Hmain.
  destruct (load_target_squad_csv CSV_PATH) as [players|e0|] eqn:Hload;
    [|unfold main, mbind, Run_bind in Hmain; by rewrite Hload in Hmain..].
  destruct (value (run_many_trials fuel players N_TRIALS SEED))
    as [results|e'|] eqn:Hrs;
    [|unfold main, mbind, Run_bind in Hmain; by rewrite Hload, Hrs in Hmain..].
  destruct (main_after_batch fuel players results Hload Hrs)
    as (mean & median & q95 & Hmean & Hmed & Hq95 & Hne & Hall & Hrep).
  rewrite Hrep in Hmain. injection Hmain as <-. cbn.
  exists players.
  assert (Forall (λ r, (Z.of_nat (size (target_names players)) <= r
                        <= foldr Z.max 0 results)%Z) (py_sorted results))
    as Hall'.
  { rewrite py_sorted_Permutation. clear -Hall.
    induction Hall as [|x xs Hx _ IH]; [constructor|]. cbn [foldr].
    constructor; [lia|]. eapply Forall_impl; [exact IH|]. cbn. lia. }
  pose proof (quantile_within _ _ _ _ _ Hmed Hall') as [Hmed_lo _].
  pose proof (quantile_le (py_sorted results) (1 # 2) (95 # 100) median q95
                (py_sorted_Sorted results) ltac:(done) Hmed Hq95) as Hle.
  pose proof (mean_ge results _ mean Hne Hall Hmean) as Hmean_lo.
  split_and!; try done.
  - apply load_target_squad_csv_nonempty_names in Hload. done.
  - unfold PACK_PRICE_EUR. apply Qmult_le_compat_r; [done|]. done.
  - unfold PACK_PRICE_EUR. ring.
Qed.
End main.

(** ** Instances *)


Lemma alternating_rng_unit_range : unit_range alternating_rng.
Proof.
  intros i. unfold alternating_rng. cbn [stream].
  destruct (Nat.even i); split; by vm_compute.
Defined.






Lemma run_single_trial_at_least_distinct_names_witness :
  value (run_single_trial (H := alternating_module) 5 [player_A; player_B]
           (Some alternating_rng))
  = Ok (2%Z, advance alternating_rng 2) ∧
  (Z.of_nat (size (target_names [player_A; player_B])) <= 2)%Z.
Proof.
  assert (value (run_single_trial (H := alternating_module) 5
                   [player_A; player_B] (Some alternating_rng))
          = Ok (2%Z, advance alternating_rng 2)) as Hr by reflexivity.
  split; [exact Hr|].
  exact (run_single_trial_at_least_distinct_names (H := alternating_module)
           5 [player_A; player_B] (Some alternating_rng) 2
           (advance alternating_rng 2) Hr).
Defined.



Lemma zero_probability_never_returns_witness :
  valid_input [player_A; player_zero] ∧
  NoDup (map name [player_A; player_zero]) ∧
  ("OTHER" ∉ map name [player_A; player_zero]) ∧
  player_zero ∈ [player_A; player_zero] ∧ (p player_zero == 0)%Q ∧
  unit_range (rng_or_default (H := alternating_module) (Some alternating_rng)) ∧
  value (run_single_trial (H := alternating_module) 7
           [player_A; player_zero] (Some alternating_rng)) = OutOfFuel.
Proof.
  assert (valid_input [player_A; player_zero]) as Hv.
  { split; [repeat constructor; by vm_compute | by vm_compute]. }
  assert (NoDup (map name [player_A; player_zero])) as Hnodup.
  { apply NoDup_cons. split.
    - by intros [=]%list_elem_of_singleton.
    - apply NoDup_singleton. }
  assert ("OTHER" ∉ map name [player_A; player_zero]) as Hother.
  { intros [[=]|[[=]|[]%elem_of_nil]%elem_of_cons]%elem_of_cons. }
  assert (player_zero ∈ [player_A; player_zero]) as Hin
    by apply list_elem_of_further, list_elem_of_here.
  assert (p player_zero == 0)%Q as Hp by reflexivity.
  refine (conj Hv (conj Hnodup (conj Hother (conj Hin (conj Hp
            (conj alternating_rng_unit_range _)))))).
  exact (zero_probability_never_returns (H := alternating_module)
           [player_A; player_zero] (Some alternating_rng) 7 player_zero
           Hv Hnodup Hother Hin Hp alternating_rng_unit_range).
Defined.

Lemma run_many_trials_results_bounded_witness :
  value (run_many_trials (H := alternating_module) 4 [player_A; player_B] 2 42)
  = Ok [2; 2]%Z ∧
  Z.of_nat (length [2; 2]%Z) = 2%Z ∧
  Forall (λ r, (Z.of_nat (size (target_names [player_A; player_B])) <= r)%Z)
    [2; 2]%Z.
Proof.
  assert (value (run_many_trials (H := alternating_module) 4
                   [player_A; player_B] 2 42) = Ok [2; 2]%Z) as Hr
    by reflexivity.
  split; [exact Hr|].
  exact (run_many_trials_results_bounded (H := alternating_module) 4
           [player_A; player_B] 2 42 [2; 2]%Z Hr).
Defined.

Lemma run_many_trials_prefix_witness :
  (0 < 1)%Z ∧ (1 <= 2)%Z ∧
  value (run_many_trials (H := alternating_module) 4 [player_A; player_B] 2 42)
  = Ok [2; 2]%Z ∧
  value (run_many_trials (H := alternating_module) 4 [player_A; player_B] 1 42)
  = Ok (take (Z.to_nat 1) [2; 2]%Z).
Proof.
  assert (0 < 1)%Z as Hm by lia. assert (1 <= 2)%Z as Hmn by lia.
  assert (value (run_many_trials (H := alternating_module) 4
                   [player_A; player_B] 2 42) = Ok [2; 2]%Z) as Hr
    by reflexivity.
  repeat (split; [assumption|]).
  exact (run_many_trials_prefix (H := alternating_module) 4
           [player_A; player_B] 1 2 42 [2; 2]%Z Hm Hmn Hr).
Defined.

Lemma no_players_no_draws_witness :
  (0 < 3)%Z ∧
  value (run_many_trials (H := alternating_module) 0 [] 3 42)
  = Ok (replicate (Z.to_nat 3) 0%Z).
Proof.
  assert (0 < 3)%Z as Hn by lia. split; [exact Hn|].
  exact (proj2 (no_players_no_draws (H := alternating_module) 0 None 3 42) Hn).
Defined.

Lemma load_target_squad_csv_first_bad_record_witness :
  dict_reader (Builtins := example_builtins [record_A; record_bad; record_B])
    CSV_PATH = [record_A] ++ record_bad :: [record_B] ∧
  Forall (λ row, ∃ pl,
            load_record (H := example_builtins
                                [record_A; record_bad; record_B]) row
            = Done pl) [record_A] ∧
  load_record (H := example_builtins [record_A; record_bad; record_B])
    record_bad = Failed (FloatValueError "half") ∧
  load_target_squad_csv (H := example_builtins
                                [record_A; record_bad; record_B]) CSV_PATH
  = Failed (FloatValueError "half").
Proof.
  assert (dict_reader
            (Builtins := example_builtins [record_A; record_bad; record_B])
            CSV_PATH = [record_A] ++ record_bad :: [record_B]) as Hrows
    by reflexivity.
  assert (Forall (λ row, ∃ pl,
            load_record (H := example_builtins
                                [record_A; record_bad; record_B]) row
            = Done pl) [record_A]) as Hgood.
  { constructor; [|constructor]. eexists. reflexivity. }
  assert (load_record (H := example_builtins [record_A; record_bad; record_B])
            record_bad = Failed (FloatValueError "half")) as Hbad
    by reflexivity.
  repeat (split; [assumption|]).
  exact (load_target_squad_csv_first_bad_record
           (H := example_builtins [record_A; record_bad; record_B])
           CSV_PATH [record_A] [record_B] record_bad _ Hrows Hgood Hbad).
Defined.

Lemma main_report_is_consistent_witness :
  main (H := constant_module 0) (H0 := example_builtins [record_A]) 1
  = example_report ∧
  ∃ rep : Report,
    example_report = Done rep ∧
    ∃ players : list TargetPlayer,
      load_target_squad_csv (H := example_builtins [record_A]) CSV_PATH
      = Done players ∧
      report_trials rep = 10000%Z ∧
      (1 <= size (target_names players))%nat ∧
      (inject_Z (Z.of_nat (size (target_names players))) <= mean_packs rep)%Q ∧
      (inject_Z (Z.of_nat (size (target_names players))) <= median_packs rep)%Q ∧
      (median_packs rep <= q95_packs rep)%Q ∧
      (median_cost rep <= q95_cost rep)%Q ∧
      (mean_cost rep == 10 * mean_packs rep)%Q.
Proof.
  assert (main (H := constant_module 0) (H0 := example_builtins [record_A]) 1
          = example_report) as Hm by (vm_compute; reflexivity).
  split; [exact Hm|]. eexists. split; [reflexivity|].
  exact (main_report_is_consistent (H := constant_module 0)
           (H0 := example_builtins [record_A]) 1 _ Hm).
Defined.
